(** * Media response curve: adstock, saturation, elasticity and landmarks

    A shallow embedding of [media_response_curve/app.py].

    Numbers.  The program computes on IEEE doubles.  This development
    keeps the special values of IEEE arithmetic (NaN and the two
    infinities, which the program produces as soon as two adstocked
    samples coincide) and idealises the finite ones as real numbers:
    no rounding, no overflow, and a single unsigned zero.  What is proved
    over the reals identifies what the program computes; where a
    statement is about the last bit of a double, or about the end of the
    double range, the section on IEEE doubles below computes the
    program's own arithmetic instead.

    - Python level scalars ([half_life], [penetration], [effectiveness],
      [hill_power], the elements of the spend column) are finite: [R].
      Python's own [/] and [**] raise on a zero divisor.
    - The elements of a numpy array are [xreal]: numpy's arithmetic never
      raises, it yields [NaN], [PInf] or [NInf].

    Control.  An exception that nothing catches ends the script, so every
    function returns an [outcome]. *)

From Stdlib Require Import Reals Lra Lia List Bool Arith ZArith.
From Stdlib Require Import PrimFloat.
Import ListNotations.
Open Scope R_scope.

(** ** Outcomes *)

Inductive exn : Type :=
| ZeroDivisionError
| IndexError
| ValueError.

(** [Complex]: Python's [float ** float] yields a complex number for a
    negative base and a non-integer exponent; the run goes on with complex
    values, which this development does not follow. *)
Inductive outcome (A : Type) : Type :=
| Returns (a : A)
| Raises (e : exn)
| Complex.

Arguments Returns {A} a.
Arguments Raises {A} e.
Arguments Complex {A}.

Definition bind {A B : Type} (m : outcome A) (k : A -> outcome B) : outcome B :=
  match m with
  | Returns a => k a
  | Raises e => Raises e
  | Complex => Complex
  end.

Notation "x <- m ;; k" := (bind m (fun x => k))
  (at level 61, m at next level, right associativity).
Notation "' p <- m ;; k" := (bind m (fun p => k))
  (at level 61, p pattern, m at next level, right associativity).

(** ** Array elements: reals extended with the IEEE special values *)

Inductive xreal : Type :=
| Fin (r : R)
| PInf
| NInf
| NaN.

Definition Req_b (a b : R) : bool := if Req_dec_T a b then true else false.
Definition Rlt_b (a b : R) : bool := if Rlt_dec a b then true else false.
Definition Rle_b (a b : R) : bool := if Rle_dec a b then true else false.

(** Sign of an array element, [None] for NaN; zero counts as positive
    (there is one zero here, the positive one). *)
Definition xsign (x : xreal) : option bool :=
  match x with
  | Fin r => Some (negb (Rlt_b r 0))
  | PInf => Some true
  | NInf => Some false
  | NaN => None
  end.

Definition xinf (positive : bool) : xreal := if positive then PInf else NInf.

Definition xneg (x : xreal) : xreal :=
  match x with
  | Fin r => Fin (- r)
  | PInf => NInf
  | NInf => PInf
  | NaN => NaN
  end.

Definition xadd (x y : xreal) : xreal :=
  match x, y with
  | Fin a, Fin b => Fin (a + b)
  | NaN, _ | _, NaN => NaN
  | PInf, NInf | NInf, PInf => NaN
  | PInf, _ | _, PInf => PInf
  | NInf, _ | _, NInf => NInf
  end.

Definition xsub (x y : xreal) : xreal := xadd x (xneg y).

Definition xis_zero (x : xreal) : bool :=
  match x with
  | Fin r => Req_b r 0
  | _ => false
  end.

Definition xmul (x y : xreal) : xreal :=
  match x, y with
  | Fin a, Fin b => Fin (a * b)
  | _, _ =>
      match xsign x, xsign y with
      | Some sx, Some sy =>
          if xis_zero x || xis_zero y then NaN else xinf (Bool.eqb sx sy)
      | _, _ => NaN
      end
  end.

Definition xdiv (x y : xreal) : xreal :=
  match x, y with
  | NaN, _ | _, NaN => NaN
  | Fin a, Fin b =>
      if Req_b b 0
      then (if Req_b a 0 then NaN else xinf (negb (Rlt_b a 0)))
      else Fin (a / b)
  | Fin _, _ => Fin 0
  | _, Fin b => xinf (Bool.eqb (negb (Rlt_b b 0)) (match x with PInf => true | _ => false end))
  | _, _ => NaN
  end.

(** Comparisons: every comparison with NaN is false, except [!=]. *)
Definition xeqb (x y : xreal) : bool :=
  match x, y with
  | Fin a, Fin b => Req_b a b
  | PInf, PInf | NInf, NInf => true
  | _, _ => false
  end.

Definition xneb (x y : xreal) : bool := negb (xeqb x y).

Definition xltb (x y : xreal) : bool :=
  match x, y with
  | NaN, _ | _, NaN => false
  | Fin a, Fin b => Rlt_b a b
  | NInf, NInf => false
  | NInf, _ => true
  | _, PInf => match x with PInf => false | _ => true end
  | _, _ => false
  end.

Definition xleb (x y : xreal) : bool :=
  match x, y with
  | NaN, _ | _, NaN => false
  | Fin a, Fin b => Rle_b a b
  | NInf, _ => true
  | _, PInf => true
  | _, _ => false
  end.

Definition xgeb (x y : xreal) : bool := xleb y x.

(** ** Powers *)

Definition is_integer (y : R) : bool := Req_b y (IZR (Int_part y)).

(** Python's [x ** y] on two floats.  Python raises [OverflowError] when
    the result leaves the double range ([0.5 ** -2000.0]); with reals for
    doubles there is no such range, and the statements below that need
    it keep their parameters where no power overflows. *)
Definition py_pow (x y : R) : outcome R :=
  if Rlt_b 0 x then Returns (Rpower x y)
  else if Req_b x 0 then
    (if Rlt_b 0 y then Returns 0
     else if Req_b y 0 then Returns 1
     else Raises ZeroDivisionError)
  else if is_integer y then Returns (powerRZ x (Int_part y))
  else Complex.

(** Python's [x / y] on two floats. *)
Definition py_div (x y : R) : outcome R :=
  if Req_b y 0 then Raises ZeroDivisionError else Returns (x / y).

(** numpy's [x ** y], one element of a float array to a Python float. *)
Definition np_pow (x : xreal) (y : R) : xreal :=
  if Req_b y 0 then Fin 1
  else
    match x with
    | NaN => NaN
    | Fin r =>
        if Rlt_b 0 r then Fin (Rpower r y)
        else if Req_b r 0 then (if Rlt_b 0 y then Fin 0 else PInf)
        else if is_integer y then Fin (powerRZ r (Int_part y))
        else NaN
    | PInf => if Rlt_b 0 y then PInf else Fin 0
    | NInf =>
        if Rlt_b 0 y
        then (if is_integer y && Z.odd (Int_part y) then NInf else PInf)
        else Fin 0
    end.

(** ** The functions of the program *)

(** [np.array] of a Python list of floats. *)
Definition np_array (l : list R) : list xreal := map Fin l.

(** The loop of [compute_adstock_series], with its running [carryover]. *)
Fixpoint adstock_loop (decay carryover : R) (spend_series : list R) : list R :=
  match spend_series with
  | [] => []
  | spend :: rest =>
      let current := spend + decay * carryover in
      current :: adstock_loop decay current rest
  end.

(** The retention per step for a non-zero half life, [0.5 ** (1 / half_life)]. *)
Definition decay_of (half_life : R) : R := Rpower (1/2) (1 / half_life).

Definition compute_adstock_series (spend_series : list R) (half_life : R)
  : outcome (list xreal) :=
  e <- py_div 1 half_life ;;
  decay <- py_pow (1/2) e ;;
  Returns (np_array (adstock_loop decay 0 spend_series)).

(** [saturation_function]: [penetration ** p] is Python's power, the rest
    numpy's element by element. *)
Definition saturation_function (adstocked_spend : list xreal) (penetration p : R)
  : outcome (list xreal) :=
  pp <- py_pow penetration p ;;
  Returns (map (fun x => xdiv (np_pow x p) (xadd (np_pow x p) (Fin pp)))
               adstocked_spend).

(** The value [saturation_function] gives to one non-negative real for
    [p > 0] (numpy has [0 ** p = 0]), as a function on the reals. *)
Definition hill_curve (penetration p x : R) : R :=
  let t := if Rlt_b 0 x then Rpower x p else 0 in
  t / (t + Rpower penetration p).

Definition compute_response_series
  (spend_series : list R) (half_life penetration effectiveness p : R)
  : outcome (list xreal * list xreal) :=
  adstocked <- compute_adstock_series spend_series half_life ;;
  saturated <- saturation_function adstocked penetration p ;;
  let response := map (xmul (Fin effectiveness)) saturated in
  Returns (response, adstocked).

(** ** [np.gradient(f, x)] for two one-dimensional arrays *)

(** [np.diff]: consecutive differences, one element shorter. *)
Fixpoint np_diff (x : list xreal) : list xreal :=
  match x with
  | a :: (b :: _) as t => xsub b a :: np_diff t
  | _ => []
  end.

(** The array never read out of range: the default is not observable. *)
Definition at_ (l : list xreal) (i : nat) : xreal := nth i l NaN.

(** One element of the result.  [ax_dx] is [np.diff x]; with [uniform]
    numpy replaces it by the scalar [ax_dx[0]].  Interior elements use the
    central difference for a constant step and the second order weights
    [a], [b], [c] otherwise; the two ends use one-sided differences
    ([edge_order = 1]). *)
Definition gradient_at (uniform : bool) (f ax_dx : list xreal) (n i : nat) : xreal :=
  if (i =? 0)%nat then
    xdiv (xsub (at_ f 1) (at_ f 0)) (at_ ax_dx 0)
  else if (i =? n - 1)%nat then
    xdiv (xsub (at_ f (n - 1)) (at_ f (n - 2)))
         (if uniform then at_ ax_dx 0 else at_ ax_dx (n - 2))
  else if uniform then
    xdiv (xsub (at_ f (i + 1)) (at_ f (i - 1))) (xmul (Fin 2) (at_ ax_dx 0))
  else
    let dx1 := at_ ax_dx (i - 1) in
    let dx2 := at_ ax_dx i in
    let a := xdiv (xneg dx2) (xmul dx1 (xadd dx1 dx2)) in
    let b := xdiv (xsub dx2 dx1) (xmul dx1 dx2) in
    let c := xdiv dx1 (xmul dx2 (xadd dx1 dx2)) in
    xadd (xadd (xmul a (at_ f (i - 1))) (xmul b (at_ f i))) (xmul c (at_ f (i + 1))).

(** [(diffx == diffx[0]).all()], the test for a constant step. *)
Definition uniform_spacing (x : list xreal) : bool :=
  match np_diff x with
  | [] => true
  | d0 :: _ => forallb (fun d => xeqb d d0) (np_diff x)
  end.

Definition np_gradient (f x : list xreal) : outcome (list xreal) :=
  if negb (length x =? length f)%nat then Raises ValueError
  else
    let diffx := np_diff x in
    match diffx with
    | [] => Raises IndexError
    | d0 :: _ =>
        let uniform := forallb (fun d => xeqb d d0) diffx in
        Returns (map (gradient_at uniform f diffx (length f)) (seq 0 (length f)))
    end.

(** [np.where(cond, a, b)] with a scalar [b]. *)
Fixpoint np_where (cond : list bool) (a : list xreal) (b : xreal) : list xreal :=
  match cond, a with
  | c :: cond', v :: a' => (if c then v else b) :: np_where cond' a' b
  | _, _ => []
  end.

(** Element by element operation on two arrays of one length. *)
Fixpoint map2 (op : xreal -> xreal -> xreal) (u v : list xreal) : list xreal :=
  match u, v with
  | a :: u', b :: v' => op a b :: map2 op u' v'
  | _, _ => []
  end.

Definition compute_elasticity (response adstocked : list xreal)
  : outcome (list xreal * list xreal) :=
  dy <- np_gradient response adstocked ;;
  let elasticity :=
    np_where (map (fun r => xneb r (Fin 0)) response)
             (map2 xmul dy (map2 xdiv adstocked response))
             (Fin 0) in
  Returns (dy, elasticity).

(** ** The landmarks of the main script *)

(** numpy's maximum of two elements: NaN wins. *)
Definition xmax (x y : xreal) : xreal :=
  match x, y with
  | NaN, _ | _, NaN => NaN
  | _, _ => if xltb x y then y else x
  end.

(** [slope.max()]: an empty array has no maximum. *)
Definition np_max (a : list xreal) : outcome xreal :=
  match a with
  | [] => Raises ValueError
  | x :: rest => Returns (fold_left xmax rest x)
  end.

(** [np.where(mask)[0][0]]: the first index at which [mask] holds. *)
Fixpoint first_index (mask : list bool) : outcome nat :=
  match mask with
  | [] => Raises IndexError
  | true :: _ => Returns 0%nat
  | false :: rest => i <- first_index rest ;; Returns (S i)
  end.

(** [a[i]] with a non-negative index. *)
Definition getitem (a : list xreal) (i : nat) : outcome xreal :=
  match nth_error a i with
  | Some v => Returns v
  | None => Raises IndexError
  end.

(** Point A, in Python's scalar arithmetic. *)
Definition point_A (penetration effectiveness hill_power : R) : outcome (R * R) :=
  let point_A_x := penetration in
  u <- py_pow point_A_x hill_power ;;
  v <- py_pow point_A_x hill_power ;;
  w <- py_pow penetration hill_power ;;
  q <- py_div u (v + w) ;;
  Returns (point_A_x, effectiveness * q).

Definition slope_threshold (slope : list xreal) : outcome xreal :=
  m <- np_max slope ;; Returns (xmul m (Fin (1/2))).

Definition idx_C (slope : list xreal) : outcome nat :=
  t <- slope_threshold slope ;;
  first_index (map (fun s => xltb s t) slope).

Definition idx_D (slope : list xreal) : outcome nat :=
  first_index (map (fun s => xltb s (Fin (1/100))) slope).

Definition point_at (adstocked response : list xreal) (i : nat)
  : outcome (xreal * xreal) :=
  x <- getitem adstocked i ;;
  y <- getitem response i ;;
  Returns (x, y).

Definition point_C (slope adstocked response : list xreal) : outcome (xreal * xreal) :=
  i <- idx_C slope ;; point_at adstocked response i.

Definition point_D (slope adstocked response : list xreal) : outcome (xreal * xreal) :=
  i <- idx_D slope ;; point_at adstocked response i.

(** Lines 96 to 105: Point C first, Point D only after it. *)
Definition landmarks (slope adstocked response : list xreal)
  : outcome ((xreal * xreal) * (xreal * xreal)) :=
  c <- point_C slope adstocked response ;;
  d <- point_D slope adstocked response ;;
  Returns (c, d).

Record CurveAnalysis : Type := mkCurveAnalysis {
  ca_adstocked : list xreal;
  ca_response : list xreal;
  ca_slope : list xreal;
  ca_elasticity : list xreal;
  ca_point_A : R * R;
  ca_point_C : xreal * xreal;
  ca_point_D : xreal * xreal
}.

(** The main block for the selected campaign, lines 80 to 105. *)
Definition analysis (spend : list R) (half_life penetration effectiveness hill_power : R)
  : outcome CurveAnalysis :=
  '(response, adstocked) <-
     compute_response_series spend half_life penetration effectiveness hill_power ;;
  '(slope, elasticity) <- compute_elasticity response adstocked ;;
  pA <- point_A penetration effectiveness hill_power ;;
  '(pC, pD) <- landmarks slope adstocked response ;;
  Returns (mkCurveAnalysis adstocked response slope elasticity pA pC pD).

(** ** The recommendation, lines 138 to 150 *)

(** The five messages of the [if]/[elif] chain. *)
Inductive recommendation : Type :=
| HighElasticity
| GoodElasticity
| ModerateElasticity
| LowElasticity
| SaturationZone.

Definition recommend (avg_elasticity : xreal) : recommendation :=
  if xltb (Fin 1) avg_elasticity then HighElasticity
  else if xltb (Fin (8/10)) avg_elasticity then GoodElasticity
  else if xltb (Fin (1/2)) avg_elasticity then ModerateElasticity
  else if xltb (Fin (1/10)) avg_elasticity then LowElasticity
  else SaturationZone.

(** The messages from the most to the least favourable. *)
Definition tier (r : recommendation) : nat :=
  match r with
  | HighElasticity => 4
  | GoodElasticity => 3
  | ModerateElasticity => 2
  | LowElasticity => 1
  | SaturationZone => 0
  end.

(** ** Line 19 and line 94 on IEEE doubles, at the exponent 1

    For [p = 1.0] the doubles of the saturation formula need no model of
    the power: numpy's and Python's [x ** 1.0] both return [x] itself, so
    what is left is one rounded addition and one rounded division. *)

Definition saturation_function_p1 (adstocked_spend penetration : PrimFloat.float)
  : PrimFloat.float :=
  PrimFloat.div adstocked_spend (PrimFloat.add adstocked_spend penetration).

(** [point_A_y], in Python's scalar arithmetic; the divisor is not zero
    for a positive [penetration]. *)
Definition point_A_y_p1 (penetration effectiveness : PrimFloat.float)
  : PrimFloat.float :=
  PrimFloat.mul effectiveness
    (PrimFloat.div penetration (PrimFloat.add penetration penetration)).

(** * Properties *)

(** ** Deciding the tests on reals *)

Lemma Req_b_true (a b : R) : a = b -> Req_b a b = true.
Proof. intros H. unfold Req_b. destruct (Req_dec_T a b); [reflexivity | contradiction]. Qed.

Lemma Req_b_false (a b : R) : a <> b -> Req_b a b = false.
Proof. intros H. unfold Req_b. destruct (Req_dec_T a b); [contradiction | reflexivity]. Qed.

Lemma Rlt_b_true (a b : R) : a < b -> Rlt_b a b = true.
Proof. intros H. unfold Rlt_b. destruct (Rlt_dec a b); [reflexivity | contradiction]. Qed.

Lemma Rlt_b_false (a b : R) : ~ a < b -> Rlt_b a b = false.
Proof. intros H. unfold Rlt_b. destruct (Rlt_dec a b); [contradiction | reflexivity]. Qed.

Lemma Rle_b_true (a b : R) : a <= b -> Rle_b a b = true.
Proof. intros H. unfold Rle_b. destruct (Rle_dec a b); [reflexivity | contradiction]. Qed.

Lemma Rle_b_false (a b : R) : ~ a <= b -> Rle_b a b = false.
Proof. intros H. unfold Rle_b. destruct (Rle_dec a b); [contradiction | reflexivity]. Qed.

Lemma Rlt_b_spec (a b : R) : Rlt_b a b = true <-> a < b.
Proof. unfold Rlt_b. destruct (Rlt_dec a b); split; intros; try discriminate; tauto. Qed.

Lemma Rle_b_spec (a b : R) : Rle_b a b = true <-> a <= b.
Proof. unfold Rle_b. destruct (Rle_dec a b); split; intros; try discriminate; tauto. Qed.

Lemma Req_b_spec (a b : R) : Req_b a b = true <-> a = b.
Proof. unfold Req_b. destruct (Req_dec_T a b); split; intros; try discriminate; tauto. Qed.

(** Settles every test on reals that [lra] can decide. *)
Ltac rtest :=
  repeat first
    [ rewrite Req_b_true by lra
    | rewrite Req_b_false by lra
    | rewrite Rlt_b_true by lra
    | rewrite Rlt_b_false by lra
    | rewrite Rle_b_true by lra
    | rewrite Rle_b_false by lra ];
  cbn [negb andb orb Bool.eqb xinf].

Arguments Req_b : simpl never.
Arguments Rlt_b : simpl never.
Arguments Rle_b : simpl never.
Arguments Rpower : simpl never.

(** Evaluates the program on concrete arrays. *)
Ltac xeval :=
  repeat (progress (cbn; unfold xneb, xgeb, xeqb, xltb, xleb, xis_zero; rtest)).

Lemma py_div_ok (x y : R) : y <> 0 -> py_div x y = Returns (x / y).
Proof. intros H. unfold py_div. now rewrite Req_b_false. Qed.

Lemma py_div_zero (x : R) : py_div x 0 = Raises ZeroDivisionError.
Proof. unfold py_div. now rewrite Req_b_true. Qed.

Lemma py_pow_pos (x y : R) : 0 < x -> py_pow x y = Returns (Rpower x y).
Proof. intros H. unfold py_pow. now rewrite Rlt_b_true. Qed.

Lemma np_pow_pos (x y : R) : 0 < x -> np_pow (Fin x) y = Fin (Rpower x y).
Proof.
  intros H. unfold np_pow. destruct (Req_dec_T y 0) as [->|Hy].
  - rewrite Req_b_true by reflexivity. now rewrite Rpower_O.
  - rewrite Req_b_false by assumption. now rewrite Rlt_b_true.
Qed.

Lemma np_pow_zero (y : R) : 0 < y -> np_pow (Fin 0) y = Fin 0.
Proof. intros H. unfold np_pow. now rtest. Qed.

Lemma Rpower_pos (x y : R) : 0 < Rpower x y.
Proof. unfold Rpower. apply exp_pos. Qed.

Lemma compute_adstock_series_eq (spend : list R) (half_life : R) :
  half_life <> 0 ->
  compute_adstock_series spend half_life
  = Returns (np_array (adstock_loop (decay_of half_life) 0 spend)).
Proof.
  intros H. unfold compute_adstock_series.
  rewrite py_div_ok by assumption. cbn [bind].
  rewrite py_pow_pos by lra. reflexivity.
Qed.

Lemma compute_adstock_series_zero (spend : list R) :
  compute_adstock_series spend 0 = Raises ZeroDivisionError.
Proof. unfold compute_adstock_series. now rewrite py_div_zero. Qed.

(** ** The adstock recurrence *)

Lemma adstock_loop_length (decay c : R) (s : list R) :
  length (adstock_loop decay c s) = length s.
Proof. revert c. induction s as [|x s IH]; intros c; cbn; [reflexivity | now rewrite IH]. Qed.

Lemma adstock_loop_head (decay c : R) (s : list R) (d : R) :
  nth 0 (adstock_loop decay c s) d
  = match s with [] => d | x :: _ => x + decay * c end.
Proof. destruct s; reflexivity. Qed.

Lemma adstock_loop_step (decay : R) (s : list R) :
  forall (c : R) (i : nat),
    (S i < length s)%nat ->
    nth (S i) (adstock_loop decay c s) 0
    = nth (S i) s 0 + decay * nth i (adstock_loop decay c s) 0.
Proof.
  induction s as [|x s IH]; intros c i Hi; cbn in Hi; [lia|].
  destruct i as [|i].
  - destruct s as [|y s]; cbn in Hi; [lia|]. reflexivity.
  - cbn [adstock_loop nth]. apply IH. lia.
Qed.

(** C1.  With [half_life > 0] the adstock transform returns an array [a]
    as long as the spend series, with [a[0] = s[0]] and
    [a[i] = s[i] + decay * a[i-1]] for [1 <= i < len s], where
    [decay = 0.5 ** (1 / half_life)]; the empty series gives the empty
    array. *)
Theorem adstock_recurrence (s : list R) (half_life : R) :
  0 < half_life ->
  exists a : list R,
    compute_adstock_series s half_life = Returns (np_array a)
    /\ length a = length s
    /\ (s = [] -> a = [])
    /\ ((0 < length s)%nat -> nth 0 a 0 = nth 0 s 0)
    /\ (forall i : nat, (1 <= i < length s)%nat ->
          nth i a 0 = nth i s 0 + Rpower (1/2) (1 / half_life) * nth (i - 1) a 0).
Proof.
  intros Hh. exists (adstock_loop (decay_of half_life) 0 s).
  split; [apply compute_adstock_series_eq; lra|].
  split; [apply adstock_loop_length|].
  split; [intros ->; reflexivity|].
  split.
  - intros Hlen. rewrite adstock_loop_head. destruct s; cbn in *; [lia | lra].
  - intros i [Hi1 Hi2]. destruct i as [|i]; [lia|].
    replace (S i - 1)%nat with i by lia.
    now apply adstock_loop_step.
Qed.

Lemma adstock_recurrence_witness :
  exists a : list R,
    compute_adstock_series [100; 100; 100] 7 = Returns (np_array a)
    /\ length a = length [100; 100; 100]
    /\ ([100; 100; 100] = [] -> a = [])
    /\ ((0 < length [100; 100; 100])%nat -> nth 0 a 0 = nth 0 [100; 100; 100] 0)
    /\ (forall i : nat, (1 <= i < length [100; 100; 100])%nat ->
          nth i a 0 = nth i [100; 100; 100] 0 + Rpower (1/2) (1 / 7) * nth (i - 1) a 0).
Proof. apply (adstock_recurrence [100; 100; 100] 7). lra. Defined.

(** ** Adstock dominates spend *)

Lemma adstock_loop_dominates (decay : R) (s : list R) :
  0 <= decay ->
  Forall (fun x => 0 <= x) s ->
  forall (c : R) (i : nat),
    0 <= c -> (i < length s)%nat ->
    0 <= nth i s 0 <= nth i (adstock_loop decay c s) 0.
Proof.
  intros Hd Hs. induction Hs as [|x s Hx Hs IH]; intros c i Hc Hi; cbn in Hi; [lia|].
  assert (0 <= decay * c) by (apply Rmult_le_pos; assumption).
  destruct i as [|i]; cbn [adstock_loop nth].
  - lra.
  - apply IH; [lra | lia].
Qed.

Lemma adstock_loop_zeros (decay : R) (s : list R) :
  Forall (fun x => x = 0) s ->
  Forall (fun x => x = 0) (adstock_loop decay 0 s).
Proof.
  induction 1 as [|x s Hx Hs IH]; cbn; constructor.
  - subst x. lra.
  - subst x. replace (0 + decay * 0) with 0 by lra. exact IH.
Qed.

(** C10.  For a spend series of non-negative reals and [half_life > 0],
    [adstocked[i] >= spend[i] >= 0] at every index, and an all-zero
    series gives an all-zero adstocked series. *)
Theorem adstock_dominates_spend (s : list R) (half_life : R) :
  0 < half_life ->
  Forall (fun x => 0 <= x) s ->
  exists a : list R,
    compute_adstock_series s half_life = Returns (np_array a)
    /\ length a = length s
    /\ (forall i : nat, (i < length s)%nat -> nth i a 0 >= nth i s 0 /\ nth i s 0 >= 0)
    /\ (Forall (fun x => x = 0) s -> Forall (fun x => x = 0) a).
Proof.
  intros Hh Hs. exists (adstock_loop (decay_of half_life) 0 s).
  split; [apply compute_adstock_series_eq; lra|].
  split; [apply adstock_loop_length|].
  split.
  - intros i Hi.
    destruct (adstock_loop_dominates (decay_of half_life) s) with (c := 0) (i := i)
      as [H1 H2]; try assumption; try lra.
    left. apply Rpower_pos.
  - apply adstock_loop_zeros.
Qed.

Lemma adstock_dominates_spend_witness :
  exists a : list R,
    compute_adstock_series [0; 5; 0] 7 = Returns (np_array a)
    /\ length a = length [0; 5; 0]
    /\ (forall i : nat, (i < length [0; 5; 0])%nat ->
          nth i a 0 >= nth i [0; 5; 0] 0 /\ nth i [0; 5; 0] 0 >= 0)
    /\ (Forall (fun x => x = 0) [0; 5; 0] -> Forall (fun x => x = 0) a).
Proof.
  apply (adstock_dominates_spend [0; 5; 0] 7); [lra|].
  repeat constructor; lra.
Defined.

(** ** The saturation function *)

Lemma xdiv_fin (a b : R) : b <> 0 -> xdiv (Fin a) (Fin b) = Fin (a / b).
Proof. intros H. cbn. now rewrite Req_b_false. Qed.



Lemma point_A_value (penetration effectiveness p : R) :
  0 < penetration ->
  point_A penetration effectiveness p = Returns (penetration, effectiveness * (1/2)).
Proof.
  intros Hpen. pose proof (Rpower_pos penetration p) as Hc.
  unfold point_A. rewrite py_pow_pos by assumption. cbn [bind].
  rewrite py_div_ok by lra. cbn [bind].
  do 3 f_equal. field. lra.
Qed.

(** In exact arithmetic, for [penetration > 0] and [p > 0], the
    saturation formula at [penetration] is [1/2] and Point A is
    [(penetration, effectiveness * 1/2)]. *)
Theorem saturation_midpoint (penetration effectiveness p : R) :
  0 < penetration -> 0 < p ->
  saturation_function [Fin penetration] penetration p = Returns [Fin (1/2)]
  /\ point_A penetration effectiveness p = Returns (penetration, effectiveness * (1/2)).
Proof.
  intros Hpen Hp. pose proof (Rpower_pos penetration p) as Hc. split.
  - unfold saturation_function. rewrite py_pow_pos by assumption. cbn [bind map].
    rewrite np_pow_pos by assumption. cbn [xadd].
    rewrite xdiv_fin by lra.
    do 3 f_equal. field. lra.
  - now apply point_A_value.
Qed.

Lemma saturation_midpoint_witness :
  saturation_function [Fin 2000] 2000 (1/2) = Returns [Fin (1/2)]
  /\ point_A 2000 500 (1/2) = Returns (2000, 500 * (1/2)).
Proof. apply (saturation_midpoint 2000 500 (1/2)); lra. Defined.



(** ** Arrays: lengths and elements *)

Lemma np_diff_length (x : list xreal) : length (np_diff x) = (length x - 1)%nat.
Proof.
  induction x as [|a [|b t] IH]; try reflexivity.
  cbn [np_diff length] in *. rewrite IH. lia.
Qed.

Lemma np_diff_at (x : list xreal) :
  forall i : nat, (S i < length x)%nat ->
    at_ (np_diff x) i = xsub (at_ x (S i)) (at_ x i).
Proof.
  unfold at_. induction x as [|a [|b t] IH]; intros i Hi; cbn [length] in Hi; try lia.
  destruct i as [|i]; [reflexivity|].
  cbn [np_diff nth]. apply IH. cbn [length]. lia.
Qed.

Lemma np_diff_short (x : list xreal) : (length x < 2)%nat -> np_diff x = [].
Proof. destruct x as [|a [|b t]]; cbn; intros; try reflexivity; lia. Qed.

Lemma map2_length (op : xreal -> xreal -> xreal) (u : list xreal) :
  forall v : list xreal, length u = length v -> length (map2 op u v) = length u.
Proof.
  induction u as [|a u IH]; intros [|b v] H; cbn in *; try reflexivity; try discriminate.
  f_equal. apply IH. lia.
Qed.

Lemma map2_at (op : xreal -> xreal -> xreal) (u : list xreal) :
  forall (v : list xreal) (i : nat),
    length u = length v -> (i < length u)%nat ->
    at_ (map2 op u v) i = op (at_ u i) (at_ v i).
Proof.
  unfold at_. induction u as [|a u IH]; intros [|b v] i H Hi; cbn in *; try lia.
  destruct i as [|i]; [reflexivity|]. apply IH; lia.
Qed.

Lemma np_where_length (cond : list bool) :
  forall (a : list xreal) (b : xreal),
    length cond = length a -> length (np_where cond a b) = length a.
Proof.
  induction cond as [|c cond IH]; intros [|v a] b H; cbn in *; try reflexivity; try discriminate.
  f_equal. apply IH. lia.
Qed.

Lemma np_where_at (cond : list bool) :
  forall (a : list xreal) (b : xreal) (i : nat),
    length cond = length a -> (i < length a)%nat ->
    at_ (np_where cond a b) i = if nth i cond false then at_ a i else b.
Proof.
  unfold at_. induction cond as [|c cond IH]; intros [|v a] b i H Hi; cbn in *; try lia.
  destruct i as [|i]; [reflexivity|]. apply IH; lia.
Qed.

Lemma xeqb_zero (r : xreal) : xeqb r (Fin 0) = true <-> r = Fin 0.
Proof.
  destruct r as [a| | |]; cbn; try (split; intros; discriminate).
  rewrite Req_b_spec. split; [intros ->; reflexivity | intros H; now inversion H].
Qed.

(** ** The gradient returns on two arrays of one length, at least two *)

Lemma np_gradient_returns (f x : list xreal) :
  length f = length x -> (2 <= length f)%nat ->
  np_gradient f x
  = Returns (map (gradient_at (uniform_spacing x) f (np_diff x) (length f))
                 (seq 0 (length f))).
Proof.
  intros Hlen Hn. unfold np_gradient, uniform_spacing.
  rewrite Hlen, Nat.eqb_refl. cbn [negb].
  pose proof (np_diff_length x) as Hd.
  destruct (np_diff x) as [|d0 ds]; [cbn in Hd; lia | reflexivity].
Qed.

Lemma gradient_elements (u : bool) (f dx : list xreal) (n i : nat) :
  (i < n)%nat ->
  at_ (map (gradient_at u f dx n) (seq 0 n)) i = gradient_at u f dx n i.
Proof.
  intros Hi. unfold at_.
  rewrite (nth_indep _ NaN (gradient_at u f dx n 0%nat)) by (now rewrite length_map, length_seq).
  rewrite (map_nth (gradient_at u f dx n)). now rewrite seq_nth.
Qed.

(** With fewer than two samples [compute_elasticity] raises inside
    [np.gradient], before any difference quotient is formed: it returns
    neither slope nor elasticity. *)
Theorem insufficient_data_raises (response adstocked : list xreal) :
  (length response < 2)%nat ->
  (exists e : exn, compute_elasticity response adstocked = Raises e)
  /\ (forall r, compute_elasticity response adstocked <> Returns r)
  /\ (length adstocked = length response ->
      np_gradient response adstocked = Raises IndexError).
Proof.
  intros Hn.
  assert (G : exists e : exn, np_gradient response adstocked = Raises e
              /\ (length adstocked = length response -> e = IndexError)).
  { unfold np_gradient.
    destruct (length adstocked =? length response)%nat eqn:E; cbn [negb].
    - apply Nat.eqb_eq in E. rewrite np_diff_short by lia.
      exists IndexError. split; reflexivity.
    - apply Nat.eqb_neq in E. exists ValueError. split; [reflexivity | intros; contradiction]. }
  destruct G as (e & Ge & Gi).
  split; [|split].
  - exists e. unfold compute_elasticity. now rewrite Ge.
  - intros r. unfold compute_elasticity. rewrite Ge. discriminate.
  - intros H. rewrite Ge. now rewrite (Gi H).
Qed.

Lemma insufficient_data_raises_witness :
  (exists e : exn, compute_elasticity [Fin 50] [Fin 50] = Raises e)
  /\ (forall r, compute_elasticity [Fin 50] [Fin 50] <> Returns r)
  /\ (length [Fin 50] = length [Fin 50] ->
      np_gradient [Fin 50] [Fin 50] = Raises IndexError).
Proof. apply (insufficient_data_raises [Fin 50] [Fin 50]). cbn. lia. Defined.

(** C7.  On two arrays of one length, at least two, the elasticity at
    every index is [slope[i] * (adstocked[i] / response[i])] where
    [response[i] != 0] and the finite value [0] where [response[i] == 0],
    whatever the slope there. *)
Theorem elasticity_pointwise (response adstocked : list xreal) :
  length response = length adstocked -> (2 <= length response)%nat ->
  exists slope elasticity : list xreal,
    compute_elasticity response adstocked = Returns (slope, elasticity)
    /\ length slope = length response
    /\ length elasticity = length response
    /\ forall i : nat, (i < length response)%nat ->
         (at_ response i <> Fin 0 ->
          at_ elasticity i = xmul (at_ slope i) (xdiv (at_ adstocked i) (at_ response i)))
         /\ (at_ response i = Fin 0 -> at_ elasticity i = Fin 0).
Proof.
  intros Hlen Hn. unfold compute_elasticity.
  rewrite np_gradient_returns by assumption. cbn [bind].
  set (dy := map _ (seq 0 (length response))).
  assert (Ldy : length dy = length response)
    by (unfold dy; now rewrite length_map, length_seq).
  assert (Lq : length (map2 xdiv adstocked response) = length response)
    by (rewrite map2_length; lia).
  assert (Lm : length (map2 xmul dy (map2 xdiv adstocked response)) = length response)
    by (rewrite map2_length; lia).
  exists dy, (np_where (map (fun r => xneb r (Fin 0)) response)
                (map2 xmul dy (map2 xdiv adstocked response)) (Fin 0)).
  split; [reflexivity|]. split; [assumption|].
  split; [rewrite np_where_length; [assumption | rewrite length_map; lia]|].
  intros i Hi.
  rewrite np_where_at by (rewrite ?length_map; lia).
  rewrite (nth_indep _ false (xneb (at_ response 0) (Fin 0))) by (now rewrite length_map).
  rewrite (map_nth (fun r => xneb r (Fin 0))). fold (at_ response i).
  rewrite (nth_indep response (at_ response 0) NaN) by assumption. fold (at_ response i).
  rewrite map2_at by lia. rewrite map2_at by lia.
  unfold xneb. split; intros H.
  - destruct (xeqb (at_ response i) (Fin 0)) eqn:E; [|reflexivity].
    apply xeqb_zero in E. contradiction.
  - apply xeqb_zero in H. now rewrite H.
Qed.

(** ** The gradient on finite samples with distinct neighbours *)

Lemma np_array_length (l : list R) : length (np_array l) = length l.
Proof. apply length_map. Qed.

Lemma np_array_at (l : list R) (i : nat) :
  (i < length l)%nat -> at_ (np_array l) i = Fin (nth i l 0).
Proof.
  intros Hi. unfold at_, np_array.
  rewrite (nth_indep _ NaN (Fin 0)) by (now rewrite length_map).
  apply (map_nth Fin).
Qed.

Lemma np_diff_array_at (x : list R) (i : nat) :
  (S i < length x)%nat ->
  at_ (np_diff (np_array x)) i = Fin (nth (S i) x 0 - nth i x 0).
Proof.
  intros Hi. rewrite np_diff_at by (rewrite np_array_length; lia).
  rewrite !np_array_at by lia. reflexivity.
Qed.

Lemma uniform_spacing_steps (x : list R) :
  uniform_spacing (np_array x) = true ->
  forall i : nat, (S i < length x)%nat ->
    nth (S i) x 0 - nth i x 0 = nth 1 x 0 - nth 0 x 0.
Proof.
  intros U i Hi. unfold uniform_spacing in U.
  pose proof (np_diff_length (np_array x)) as Ld. rewrite np_array_length in Ld.
  pose proof (np_diff_array_at x 0 ltac:(lia)) as D0.
  pose proof (np_diff_array_at x i Hi) as Di.
  destruct (np_diff (np_array x)) as [|d0 ds] eqn:E; [cbn in Ld; lia|].
  rewrite forallb_forall in U.
  assert (In (at_ (d0 :: ds) i) (d0 :: ds)) as Hin by (apply nth_In; lia).
  apply U in Hin. rewrite Di in Hin. unfold at_ in D0. cbn [nth] in D0. subst d0.
  cbn in Hin. now apply Req_b_spec in Hin.
Qed.

Section FiniteGradient.
Variables r x : list R.
Hypothesis Hlen : length r = length x.
Hypothesis Hn : (2 <= length r)%nat.
Hypothesis Hstep : forall i : nat, (S i < length x)%nat -> nth (S i) x 0 <> nth i x 0.
Hypothesis Hskip : forall i : nat, (S (S i) < length x)%nat -> nth (S (S i)) x 0 <> nth i x 0.

Lemma gradient_first :
  gradient_at (uniform_spacing (np_array x)) (np_array r) (np_diff (np_array x))
    (length r) 0%nat
  = Fin ((nth 1 r 0 - nth 0 r 0) / (nth 1 x 0 - nth 0 x 0)).
Proof.
  unfold gradient_at. cbn [Nat.eqb].
  rewrite !np_array_at by lia. rewrite np_diff_array_at by lia.
  cbn [xsub xneg xadd]. rewrite xdiv_fin; [reflexivity|].
  specialize (Hstep 0%nat ltac:(lia)). lra.
Qed.

Lemma gradient_last :
  gradient_at (uniform_spacing (np_array x)) (np_array r) (np_diff (np_array x))
    (length r) (length r - 1)%nat
  = Fin ((nth (length r - 1) r 0 - nth (length r - 2) r 0)
         / (nth (length r - 1) x 0 - nth (length r - 2) x 0)).
Proof.
  unfold gradient_at.
  destruct (length r - 1 =? 0)%nat eqn:E0; [apply Nat.eqb_eq in E0; lia|].
  rewrite Nat.eqb_refl.
  rewrite !np_array_at by lia.
  assert (Hd : at_ (np_diff (np_array x)) (length r - 2)
               = Fin (nth (length r - 1) x 0 - nth (length r - 2) x 0)).
  { rewrite np_diff_array_at by lia. repeat f_equal; lia. }
  assert (Hne : nth (length r - 1) x 0 - nth (length r - 2) x 0 <> 0).
  { specialize (Hstep (length r - 2)%nat ltac:(lia)).
    replace (S (length r - 2)) with (length r - 1)%nat in Hstep by lia. lra. }
  destruct (uniform_spacing (np_array x)) eqn:U.
  - rewrite np_diff_array_at by lia.
    pose proof (uniform_spacing_steps x U (length r - 2)%nat ltac:(lia)) as Hu.
    replace (S (length r - 2)) with (length r - 1)%nat in Hu by lia.
    rewrite <- Hu. cbn [xsub xneg xadd]. now rewrite xdiv_fin.
  - rewrite Hd. cbn [xsub xneg xadd]. now rewrite xdiv_fin.
Qed.

Lemma gradient_interior (i : nat) :
  (0 < i < length r - 1)%nat ->
  let hs := nth i x 0 - nth (i - 1) x 0 in
  let hd := nth (i + 1) x 0 - nth i x 0 in
  gradient_at (uniform_spacing (np_array x)) (np_array r) (np_diff (np_array x))
    (length r) i
  = Fin ((hs * hs * nth (i + 1) r 0 + (hd * hd - hs * hs) * nth i r 0
              - hd * hd * nth (i - 1) r 0) / (hs * hd * (hd + hs))).
Proof.
  intros [Hi1 Hi2] hs hd.
  assert (Hs : hs <> 0).
  { unfold hs. specialize (Hstep (i - 1)%nat ltac:(lia)).
    replace (S (i - 1)) with i in Hstep by lia. lra. }
  assert (Hd : hd <> 0).
  { unfold hd. specialize (Hstep i ltac:(lia)).
    replace (S i) with (i + 1)%nat in Hstep by lia. lra. }
  assert (Hsd : hd + hs <> 0).
  { unfold hs, hd. specialize (Hskip (i - 1)%nat ltac:(lia)).
    replace (S (S (i - 1))) with (i + 1)%nat in Hskip by lia. lra. }
  assert (D1 : at_ (np_diff (np_array x)) (i - 1) = Fin hs).
  { rewrite np_diff_array_at by lia. unfold hs. repeat f_equal; lia. }
  assert (D2 : at_ (np_diff (np_array x)) i = Fin hd).
  { rewrite np_diff_array_at by lia. unfold hd. repeat f_equal; lia. }
  unfold gradient_at.
  destruct (i =? 0)%nat eqn:E0; [apply Nat.eqb_eq in E0; lia|].
  destruct (i =? length r - 1)%nat eqn:E1; [apply Nat.eqb_eq in E1; lia|].
  rewrite !np_array_at by lia.
  destruct (uniform_spacing (np_array x)) eqn:U.
  - rewrite np_diff_array_at by lia.
    pose proof (uniform_spacing_steps x U (i - 1)%nat ltac:(lia)) as U1.
    pose proof (uniform_spacing_steps x U i ltac:(lia)) as U2.
    replace (S (i - 1)) with i in U1 by lia.
    replace (S i) with (i + 1)%nat in U2 by lia.
    fold hs in U1. fold hd in U2. rewrite <- U1.
    cbn [xsub xneg xadd xmul]. rewrite xdiv_fin by lra.
    f_equal. rewrite U2, <- U1. field. lra.
  - rewrite D1, D2. cbn [xsub xneg xadd xmul].
    rewrite !xdiv_fin; try (apply Rmult_integral_contrapositive_currified; lra).
    cbn [xmul xadd]. f_equal. field. repeat split; lra.
Qed.
End FiniteGradient.

(** ** The slope *)

(** C8, as stated, fails: on the adstocked values [0, 1, 3] (steps 1 and
    2) and the responses [0, 1, 9] the interior slope is 2, the symmetric
    quotient [(9 - 0) / (3 - 0)] is 3. *)
Lemma central_difference_counterexample :
  exists slope elasticity : list xreal,
    compute_elasticity [Fin 0; Fin 1; Fin 9] [Fin 0; Fin 1; Fin 3]
    = Returns (slope, elasticity)
    /\ at_ slope 1 = Fin 2
    /\ at_ slope 1
       <> xdiv (xsub (at_ [Fin 0; Fin 1; Fin 9] 2) (at_ [Fin 0; Fin 1; Fin 9] 0))
               (xsub (at_ [Fin 0; Fin 1; Fin 3] 2) (at_ [Fin 0; Fin 1; Fin 3] 0)).
Proof.
  unfold compute_elasticity, np_gradient. xeval.
  unfold gradient_at, at_. xeval.
  do 2 eexists. split; [reflexivity|].
  cbn [nth].
  match goal with
  | |- Fin ?e = _ /\ _ => replace e with 2 by field
  end.
  split; [reflexivity|].
  replace ((9 + - 0) / (3 + - 0)) with 3 by (field; lra).
  intros H. injection H as H. lra.
Qed.

(** C8, amended.  On finite samples whose neighbouring adstocked values
    differ, the slope is one-sided at the two ends and numpy's second
    order difference inside, which is the symmetric quotient
    [(response[i+1] - response[i-1]) / (adstocked[i+1] - adstocked[i-1])]
    wherever the two steps around [i] are equal. *)
Theorem gradient_finite_differences (r x : list R) :
  length r = length x -> (2 <= length r)%nat ->
  (forall i : nat, (S i < length x)%nat -> nth (S i) x 0 <> nth i x 0) ->
  (forall i : nat, (S (S i) < length x)%nat -> nth (S (S i)) x 0 <> nth i x 0) ->
  let n := length r in
  exists slope elasticity : list xreal,
    compute_elasticity (np_array r) (np_array x) = Returns (slope, elasticity)
    /\ length slope = n
    /\ at_ slope 0 = Fin ((nth 1 r 0 - nth 0 r 0) / (nth 1 x 0 - nth 0 x 0))
    /\ at_ slope (n - 1)
       = Fin ((nth (n - 1) r 0 - nth (n - 2) r 0) / (nth (n - 1) x 0 - nth (n - 2) x 0))
    /\ forall i : nat, (0 < i < n - 1)%nat ->
         let hs := nth i x 0 - nth (i - 1) x 0 in
         let hd := nth (i + 1) x 0 - nth i x 0 in
         at_ slope i
         = Fin ((hs * hs * nth (i + 1) r 0 + (hd * hd - hs * hs) * nth i r 0
                 - hd * hd * nth (i - 1) r 0) / (hs * hd * (hd + hs)))
         /\ (hs = hd ->
             at_ slope i
             = Fin ((nth (i + 1) r 0 - nth (i - 1) r 0)
                    / (nth (i + 1) x 0 - nth (i - 1) x 0))).
Proof.
  intros Hlen Hn Hstep Hskip n. subst n. unfold compute_elasticity.
  rewrite np_gradient_returns by (rewrite !np_array_length; assumption).
  cbn [bind]. rewrite np_array_length.
  do 2 eexists. split; [reflexivity|].
  split; [now rewrite length_map, length_seq|].
  split; [rewrite gradient_elements by lia; now apply gradient_first|].
  split; [rewrite gradient_elements by lia; now apply gradient_last|].
  intros i Hi.
  set (hs := nth i x 0 - nth (i - 1) x 0).
  set (hd := nth (i + 1) x 0 - nth i x 0).
  rewrite gradient_elements by lia.
  pose proof (gradient_interior r x Hlen Hn Hstep Hskip i Hi) as G.
  cbv zeta in G. fold hs hd in G. split; [exact G|].
  intros E. rewrite G. f_equal.
  assert (Hd : hd <> 0).
  { unfold hd. specialize (Hstep i ltac:(lia)).
    replace (S i) with (i + 1)%nat in Hstep by lia. lra. }
  replace (nth (i + 1) x 0 - nth (i - 1) x 0) with (hd + hs) by (unfold hs, hd; lra).
  rewrite E. field. lra.
Qed.

Lemma gradient_finite_differences_witness :
  let r := [0; 1; 9] in
  let x := [0; 1; 3] in
  let n := length r in
  exists slope elasticity : list xreal,
    compute_elasticity (np_array r) (np_array x) = Returns (slope, elasticity)
    /\ length slope = n
    /\ at_ slope 0 = Fin ((nth 1 r 0 - nth 0 r 0) / (nth 1 x 0 - nth 0 x 0))
    /\ at_ slope (n - 1)
       = Fin ((nth (n - 1) r 0 - nth (n - 2) r 0) / (nth (n - 1) x 0 - nth (n - 2) x 0))
    /\ forall i : nat, (0 < i < n - 1)%nat ->
         let hs := nth i x 0 - nth (i - 1) x 0 in
         let hd := nth (i + 1) x 0 - nth i x 0 in
         at_ slope i
         = Fin ((hs * hs * nth (i + 1) r 0 + (hd * hd - hs * hs) * nth i r 0
                 - hd * hd * nth (i - 1) r 0) / (hs * hd * (hd + hs)))
         /\ (hs = hd ->
             at_ slope i
             = Fin ((nth (i + 1) r 0 - nth (i - 1) r 0)
                    / (nth (i + 1) x 0 - nth (i - 1) x 0))).
Proof.
  apply (gradient_finite_differences [0; 1; 9] [0; 1; 3]).
  - reflexivity.
  - cbn. lia.
  - intros [|[|i]] Hi; cbn in *; try lia; lra.
  - intros [|i] Hi; cbn in *; try lia; lra.
Defined.

Lemma elasticity_pointwise_witness :
  exists slope elasticity : list xreal,
    compute_elasticity [Fin 0; Fin 0] [Fin 0; Fin 0] = Returns (slope, elasticity)
    /\ length slope = length [Fin 0; Fin 0]
    /\ length elasticity = length [Fin 0; Fin 0]
    /\ forall i : nat, (i < length [Fin 0; Fin 0])%nat ->
         (at_ [Fin 0; Fin 0] i <> Fin 0 ->
          at_ elasticity i
          = xmul (at_ slope i) (xdiv (at_ [Fin 0; Fin 0] i) (at_ [Fin 0; Fin 0] i)))
         /\ (at_ [Fin 0; Fin 0] i = Fin 0 -> at_ elasticity i = Fin 0).
Proof. apply (elasticity_pointwise [Fin 0; Fin 0] [Fin 0; Fin 0]); cbn; lia. Defined.

(** Two equal adstocked samples with zero response: the slope is NaN at
    both, the elasticity is 0 at both. *)
Example elasticity_zero_under_nan_slope :
  compute_elasticity [Fin 0; Fin 0] [Fin 0; Fin 0]
  = Returns ([NaN; NaN], [Fin 0; Fin 0]).
Proof. unfold compute_elasticity, np_gradient. xeval. reflexivity. Qed.

(** ** Order on array elements *)

(** Opens every test on reals in the goal and the hypotheses. *)
Ltac rcases :=
  unfold Rlt_b, Rle_b, Req_b in *;
  repeat match goal with
    | |- context [Rlt_dec ?a ?b] => destruct (Rlt_dec a b)
    | |- context [Rle_dec ?a ?b] => destruct (Rle_dec a b)
    | |- context [Req_dec_T ?a ?b] => destruct (Req_dec_T a b)
    | H : context [Rlt_dec ?a ?b] |- _ => destruct (Rlt_dec a b)
    | H : context [Rle_dec ?a ?b] |- _ => destruct (Rle_dec a b)
    | H : context [Req_dec_T ?a ?b] |- _ => destruct (Req_dec_T a b)
    end;
  try discriminate; try reflexivity; try lra.

Lemma xleb_trans (x y z : xreal) :
  xleb x y = true -> xleb y z = true -> xleb x z = true.
Proof. destruct x, y, z; cbn; intros; try discriminate; try reflexivity; rcases. Qed.

Lemma xleb_refl (x : xreal) : x <> NaN -> xleb x x = true.
Proof. destruct x; cbn; intros; try reflexivity; try contradiction; rcases. Qed.

Lemma xleb_not_nan (x y : xreal) : xleb x y = true -> x <> NaN /\ y <> NaN.
Proof. destruct x, y; cbn; intros; try discriminate; split; discriminate. Qed.

Lemma xltb_not_nan (x y : xreal) : xltb x y = true -> x <> NaN /\ y <> NaN.
Proof. destruct x, y; cbn; intros; try discriminate; split; discriminate. Qed.

(** Away from NaN, a failed [<] is a [>=]. *)
Lemma xltb_false_xgeb (x y : xreal) :
  x <> NaN -> y <> NaN -> xltb x y = false -> xgeb x y = true.
Proof.
  unfold xgeb. destruct x, y; cbn; intros; try discriminate; try reflexivity;
    try contradiction; rcases.
Qed.

Lemma xmax_cases (x y : xreal) :
  x <> NaN -> y <> NaN ->
  (xmax x y = x \/ xmax x y = y)
  /\ xleb x (xmax x y) = true /\ xleb y (xmax x y) = true.
Proof.
  destruct x, y; cbn; intros; try contradiction; rcases; auto.
Qed.

Lemma xmax_not_nan (x y : xreal) : xmax x y <> NaN -> x <> NaN /\ y <> NaN.
Proof. destruct x, y; cbn; intros H; split; try discriminate; try contradiction. Qed.

Lemma fold_xmax_spec (rest : list xreal) :
  forall x : xreal,
    fold_left xmax rest x <> NaN ->
    In (fold_left xmax rest x) (x :: rest)
    /\ Forall (fun s => xleb s (fold_left xmax rest x) = true) (x :: rest).
Proof.
  induction rest as [|y rest IH]; intros x Hm; cbn [fold_left] in *.
  - split; [now left|]. constructor; [now apply xleb_refl | constructor].
  - destruct (IH _ Hm) as [Hin Hall].
    inversion Hall as [|? ? Hxy Hrest]; subst.
    destruct (xleb_not_nan _ _ Hxy) as [Hxy' _].
    destruct (xmax_not_nan _ _ Hxy') as [Hx Hy].
    destruct (xmax_cases x y Hx Hy) as (Hc & Lx & Ly).
    split.
    + destruct Hin as [Hin | Hin].
      * destruct Hc as [Hc | Hc]; rewrite Hc in Hin |- *; [left | right; left]; assumption.
      * right; right; assumption.
    + constructor; [eapply xleb_trans; eassumption|].
      constructor; [eapply xleb_trans; eassumption | assumption].
Qed.

Lemma xmul_not_nan (x y : xreal) : xmul x y <> NaN -> x <> NaN /\ y <> NaN.
Proof. destruct x, y; cbn; intros H; split; try discriminate; try contradiction. Qed.

(** ** The first index of a mask *)

Lemma first_index_found (mask : list bool) :
  forall i : nat, nth i mask false = true ->
    exists i0 : nat,
      first_index mask = Returns i0
      /\ (i0 <= i)%nat /\ (i0 < length mask)%nat
      /\ nth i0 mask false = true
      /\ forall k : nat, (k < i0)%nat -> nth k mask false = false.
Proof.
  induction mask as [|b mask IH]; intros i Hi.
  - destruct i; discriminate.
  - destruct b.
    + exists 0%nat. cbn. repeat split; lia.
    + destruct i as [|i]; [discriminate|]. cbn [nth] in Hi.
      destruct (IH i Hi) as (i0 & E & Hle & Hlt & Ht & Hbefore).
      exists (S i0). cbn [first_index]. rewrite E. cbn.
      repeat split; try lia; try assumption.
      intros [|k] Hk; [reflexivity|]. apply Hbefore. lia.
Qed.

Lemma first_index_none (mask : list bool) :
  (forall i : nat, nth i mask false = false) -> first_index mask = Raises IndexError.
Proof.
  induction mask as [|b mask IH]; intros H; [reflexivity|].
  pose proof (H 0%nat) as H0. cbn in H0. subst b. cbn [first_index].
  rewrite IH; [reflexivity|]. intros i. exact (H (S i)).
Qed.

Lemma mask_at (t : xreal) (slope : list xreal) (k : nat) :
  nth k (map (fun s => xltb s t) slope) false = xltb (at_ slope k) t.
Proof. unfold at_. exact (map_nth (fun s => xltb s t) slope NaN k). Qed.

Lemma getitem_at (a : list xreal) (i : nat) :
  (i < length a)%nat -> getitem a i = Returns (at_ a i).
Proof.
  intros Hi. unfold getitem, at_.
  now rewrite (nth_error_nth' a NaN Hi).
Qed.

Lemma point_at_eq (adstocked response : list xreal) (i : nat) :
  (i < length adstocked)%nat -> (i < length response)%nat ->
  point_at adstocked response i = Returns (at_ adstocked i, at_ response i).
Proof. intros Ha Hr. unfold point_at. now rewrite !getitem_at. Qed.

Lemma at_In (a : list xreal) (i : nat) : (i < length a)%nat -> In (at_ a i) a.
Proof. intros Hi. now apply nth_In. Qed.

(** A maximum that is not NaN bounds an array without NaN. *)
Lemma np_max_spec (slope : list xreal) (m : xreal) :
  np_max slope = Returns m -> m <> NaN ->
  In m slope
  /\ forall k : nat, (k < length slope)%nat ->
       at_ slope k <> NaN /\ xleb (at_ slope k) m = true.
Proof.
  destruct slope as [|x rest]; [discriminate|].
  cbn [np_max]. intros E Hm. injection E as <-.
  destruct (fold_xmax_spec rest x Hm) as [Hin Hall].
  split; [assumption|]. intros k Hk.
  rewrite Forall_forall in Hall.
  pose proof (Hall _ (at_In (x :: rest) k Hk)) as Hle.
  split; [apply (xleb_not_nan _ _ Hle) | assumption].
Qed.

Lemma np_max_returns (slope : list xreal) :
  (0 < length slope)%nat -> exists m : xreal, np_max slope = Returns m.
Proof. destruct slope; cbn; intros; [lia | eexists; reflexivity]. Qed.

(** Whenever some slope is below half the maximum slope, Point C
    is taken at the first such index [i0]: every slope before it is
    [>=] the threshold, and the point is [(adstocked[i0], response[i0])].
    Whenever moreover some slope is below [0.01], Point D is taken at the
    first such index [j0], every slope before it is [>= 0.01], and the
    point is [(adstocked[j0], response[j0])]. *)
Theorem landmarks_first_crossing (slope adstocked response : list xreal) (m : xreal) :
  length adstocked = length slope -> length response = length slope ->
  np_max slope = Returns m ->
  (exists i : nat, xltb (at_ slope i) (xmul m (Fin (1/2))) = true) ->
  In m slope
  /\ (forall k : nat, (k < length slope)%nat -> xleb (at_ slope k) m = true)
  /\ exists i0 : nat,
       idx_C slope = Returns i0
       /\ (i0 < length slope)%nat
       /\ xltb (at_ slope i0) (xmul m (Fin (1/2))) = true
       /\ (forall k : nat, (k < i0)%nat -> xgeb (at_ slope k) (xmul m (Fin (1/2))) = true)
       /\ point_C slope adstocked response = Returns (at_ adstocked i0, at_ response i0)
       /\ ((exists j : nat, xltb (at_ slope j) (Fin (1/100)) = true) ->
           exists j0 : nat,
             idx_D slope = Returns j0
             /\ (j0 < length slope)%nat
             /\ xltb (at_ slope j0) (Fin (1/100)) = true
             /\ (forall k : nat, (k < j0)%nat -> xgeb (at_ slope k) (Fin (1/100)) = true)
             /\ point_D slope adstocked response = Returns (at_ adstocked j0, at_ response j0)
             /\ landmarks slope adstocked response
                = Returns ((at_ adstocked i0, at_ response i0),
                           (at_ adstocked j0, at_ response j0))).
Proof.
  intros La Lr Hmax [i Hi].
  destruct (xltb_not_nan _ _ Hi) as [_ Ht].
  destruct (xmul_not_nan _ _ Ht) as [Hm _].
  destruct (np_max_spec slope m Hmax Hm) as [Hin Hbound].
  split; [assumption|]. split; [intros k Hk; apply Hbound, Hk|].
  rewrite <- mask_at in Hi.
  destruct (first_index_found _ i Hi) as (i0 & Ei & _ & Hlt & Hti & Hbefore).
  rewrite length_map in Hlt.
  assert (EC : idx_C slope = Returns i0).
  { unfold idx_C, slope_threshold. rewrite Hmax. cbn [bind]. exact Ei. }
  assert (PC : point_C slope adstocked response = Returns (at_ adstocked i0, at_ response i0)).
  { unfold point_C. rewrite EC. cbn [bind]. apply point_at_eq; lia. }
  exists i0. rewrite mask_at in Hti.
  repeat (split; [assumption|]).
  split.
  { intros k Hk. apply xltb_false_xgeb; [apply Hbound; lia | assumption|].
    rewrite <- mask_at. now apply Hbefore. }
  split; [assumption|].
  intros [j Hj]. rewrite <- mask_at in Hj.
  destruct (first_index_found _ j Hj) as (j0 & Ej & _ & Hltj & Htj & Hbeforej).
  rewrite length_map in Hltj. rewrite mask_at in Htj.
  assert (PD : point_D slope adstocked response = Returns (at_ adstocked j0, at_ response j0)).
  { unfold point_D, idx_D. rewrite Ej. cbn [bind]. apply point_at_eq; lia. }
  exists j0. repeat (split; [assumption|]).
  split.
  { intros k Hk. apply xltb_false_xgeb; [apply Hbound; lia | discriminate|].
    rewrite <- mask_at. now apply Hbeforej. }
  split; [assumption|].
  unfold landmarks. rewrite PC. cbn [bind]. rewrite PD. reflexivity.
Qed.

Lemma landmarks_first_crossing_witness :
  let slope := [Fin 1; Fin (1/4); Fin (1/200)] in
  let adstocked := [Fin 1; Fin 2; Fin 3] in
  let response := [Fin 1; Fin 2; Fin (5/2)] in
  In (Fin 1) slope
  /\ (forall k : nat, (k < length slope)%nat -> xleb (at_ slope k) (Fin 1) = true)
  /\ exists i0 : nat,
       idx_C slope = Returns i0
       /\ (i0 < length slope)%nat
       /\ xltb (at_ slope i0) (xmul (Fin 1) (Fin (1/2))) = true
       /\ (forall k : nat, (k < i0)%nat ->
             xgeb (at_ slope k) (xmul (Fin 1) (Fin (1/2))) = true)
       /\ point_C slope adstocked response = Returns (at_ adstocked i0, at_ response i0)
       /\ ((exists j : nat, xltb (at_ slope j) (Fin (1/100)) = true) ->
           exists j0 : nat,
             idx_D slope = Returns j0
             /\ (j0 < length slope)%nat
             /\ xltb (at_ slope j0) (Fin (1/100)) = true
             /\ (forall k : nat, (k < j0)%nat -> xgeb (at_ slope k) (Fin (1/100)) = true)
             /\ point_D slope adstocked response = Returns (at_ adstocked j0, at_ response j0)
             /\ landmarks slope adstocked response
                = Returns ((at_ adstocked i0, at_ response i0),
                           (at_ adstocked j0, at_ response j0))).
Proof.
  apply (landmarks_first_crossing
           [Fin 1; Fin (1/4); Fin (1/200)] [Fin 1; Fin 2; Fin 3]
           [Fin 1; Fin 2; Fin (5/2)] (Fin 1)).
  - reflexivity.
  - reflexivity.
  - unfold np_max. xeval. unfold xmax. xeval. reflexivity.
  - exists 1%nat. unfold at_. xeval. reflexivity.
Defined.

(** ** The response series and the whole analysis *)

Lemma compute_response_series_returns
  (spend : list R) (half_life penetration effectiveness p pp : R) :
  half_life <> 0 -> py_pow penetration p = Returns pp ->
  compute_response_series spend half_life penetration effectiveness p
  = Returns
      (map (xmul (Fin effectiveness))
         (map (fun x => xdiv (np_pow x p) (xadd (np_pow x p) (Fin pp)))
            (np_array (adstock_loop (decay_of half_life) 0 spend))),
       np_array (adstock_loop (decay_of half_life) 0 spend)).
Proof.
  intros Hh Hp. unfold compute_response_series.
  rewrite compute_adstock_series_eq by assumption. cbn [bind].
  unfold saturation_function. rewrite Hp. reflexivity.
Qed.

Lemma compute_response_series_zero_half_life
  (spend : list R) (penetration effectiveness p : R) :
  compute_response_series spend 0 penetration effectiveness p = Raises ZeroDivisionError.
Proof. unfold compute_response_series. now rewrite compute_adstock_series_zero. Qed.

Lemma decay_of_one : decay_of 1 = 1/2.
Proof. unfold decay_of. replace (1 / 1) with 1 by field. apply Rpower_1. lra. Qed.

(** With fewer than two samples and parameters in range the run ends in
    [np.gradient]. *)
Lemma analysis_insufficient_data
  (spend : list R) (half_life penetration effectiveness p : R) :
  (length spend < 2)%nat -> half_life <> 0 -> 0 < penetration ->
  analysis spend half_life penetration effectiveness p = Raises IndexError.
Proof.
  intros Hn Hh Hpen. unfold analysis.
  rewrite (compute_response_series_returns spend half_life penetration effectiveness p
             (Rpower penetration p) Hh (py_pow_pos _ _ Hpen)).
  cbn [bind]. unfold compute_elasticity, np_gradient.
  rewrite !length_map, Nat.eqb_refl. cbn [negb].
  rewrite np_diff_short; [reflexivity|].
  unfold np_array. rewrite length_map, adstock_loop_length. assumption.
Qed.

(** Scenario 2 of the specification, at the default parameters. *)
Example analysis_single_point :
  analysis [50] 7 2000 500 (1/2) = Raises IndexError.
Proof. apply analysis_insufficient_data; cbn; try lia; lra. Qed.

(** C3.  The single-point series [[50]] at the default parameters: both
    series are computed, each of length 1, and then [compute_elasticity]
    ends in the [IndexError] that [np.gradient] raises at [diffx[0]].
    Nothing checks the length, and the run ends with this uncaught
    exception. *)
Theorem single_point_raises_index_error :
  (exists response adstocked : list xreal,
     compute_response_series [50] 7 2000 500 (1/2) = Returns (response, adstocked)
     /\ length response = 1%nat /\ length adstocked = 1%nat
     /\ compute_elasticity response adstocked = Raises IndexError)
  /\ analysis [50] 7 2000 500 (1/2) = Raises IndexError.
Proof.
  split.
  - do 2 eexists. split.
    + apply (compute_response_series_returns [50] 7 2000 500 (1/2) (Rpower 2000 (1/2)));
        [lra | apply py_pow_pos; lra].
    + split; [reflexivity|]. split; [reflexivity|]. reflexivity.
  - apply analysis_insufficient_data; cbn; try lia; lra.
Qed.

(** ** A landmark that no slope reaches *)

Lemma idx_C_missing (slope : list xreal) (m : xreal) :
  np_max slope = Returns m ->
  (forall i : nat, xltb (at_ slope i) (xmul m (Fin (1/2))) = false) ->
  idx_C slope = Raises IndexError.
Proof.
  intros Hm H. unfold idx_C, slope_threshold. rewrite Hm. cbn [bind].
  apply first_index_none. intros i. rewrite mask_at. apply H.
Qed.

Lemma idx_D_missing (slope : list xreal) :
  (forall i : nat, xltb (at_ slope i) (Fin (1/100)) = false) ->
  idx_D slope = Raises IndexError.
Proof. intros H. apply first_index_none. intros i. rewrite mask_at. apply H. Qed.

(** Solves equalities of outcomes whose arrays hold closed real terms. *)
Ltac fin_eq :=
  repeat first
    [ reflexivity
    | apply (f_equal Fin); (field || lra)
    | apply f_equal2
    | apply f_equal ].

Lemma response_of_two_units :
  compute_response_series [1; 1] 1 1 1 1
  = Returns ([Fin (1/2); Fin (3/5)], [Fin 1; Fin (3/2)]).
Proof.
  rewrite (compute_response_series_returns [1; 1] 1 1 1 1 1);
    [| lra | rewrite py_pow_pos by lra; now rewrite Rpower_1 by lra].
  rewrite decay_of_one. cbn [adstock_loop np_array map].
  rewrite !np_pow_pos by lra. rewrite !Rpower_1 by lra.
  cbn [xadd]. rewrite !xdiv_fin by lra. cbn [xmul].
  fin_eq.
Qed.

Lemma elasticity_of_two_units :
  compute_elasticity [Fin (1/2); Fin (3/5)] [Fin 1; Fin (3/2)]
  = Returns ([Fin (1/5); Fin (1/5)], [Fin (2/5); Fin (1/2)]).
Proof.
  unfold compute_elasticity, np_gradient. xeval.
  unfold gradient_at, at_. xeval. fin_eq.
Qed.

(** C2.  Two days of spend 1 with every parameter at 1: both slopes are
    [1/5], none is below half the maximum, and the run ends with an
    uncaught [IndexError] at [idx_C]: no landmark, no series and no Point A
    are handed on. *)
Theorem landmark_not_found_raises :
  analysis [1; 1] 1 1 1 1 = Raises IndexError
  /\ compute_elasticity [Fin (1/2); Fin (3/5)] [Fin 1; Fin (3/2)]
     = Returns ([Fin (1/5); Fin (1/5)], [Fin (2/5); Fin (1/2)])
  /\ idx_C [Fin (1/5); Fin (1/5)] = Raises IndexError
  /\ idx_D [Fin (1/5); Fin (1/5)] = Raises IndexError.
Proof.
  assert (C : idx_C [Fin (1/5); Fin (1/5)] = Raises IndexError).
  { apply (idx_C_missing _ (Fin (1/5))).
    - unfold np_max. xeval. unfold xmax. xeval. reflexivity.
    - intros [|[|i]]; unfold at_; xeval; try reflexivity.
      destruct i; reflexivity. }
  split; [|split; [apply elasticity_of_two_units | split; [exact C|]]].
  - unfold analysis. rewrite response_of_two_units. cbn [bind].
    rewrite elasticity_of_two_units. cbn [bind].
    rewrite point_A_value by lra. cbn [bind].
    unfold landmarks, point_C. rewrite C. reflexivity.
  - apply idx_D_missing.
    intros [|[|i]]; unfold at_; xeval; try reflexivity.
    destruct i; reflexivity.
Qed.

(** ** Parameters out of range *)

(** C4, as stated, fails: with [effectiveness = -1] nothing is reported
    and both series are produced. *)
Lemma invalid_parameter_counterexample :
  -1 <= 0
  /\ compute_response_series [1] 1 1 (-1) 1 = Returns ([Fin (-1/2)], [Fin 1]).
Proof.
  split; [lra|].
  rewrite (compute_response_series_returns [1] 1 1 (-1) 1 1);
    [| lra | rewrite py_pow_pos by lra; now rewrite Rpower_1 by lra].
  rewrite decay_of_one. cbn [adstock_loop np_array map].
  rewrite !np_pow_pos by lra. rewrite !Rpower_1 by lra.
  cbn [xadd]. rewrite !xdiv_fin by lra. cbn [xmul].
  fin_eq.
Qed.

(** A negative half life is not reported either: the decay is then 2. *)
Example negative_half_life_proceeds :
  compute_adstock_series [1; 1] (-1) = Returns [Fin 1; Fin 3].
Proof.
  rewrite compute_adstock_series_eq by lra.
  assert (D : decay_of (-1) = 2).
  { unfold decay_of. replace (1 / -1) with (- (1)) by field.
    rewrite Rpower_Ropp, Rpower_1 by lra. field. }
  rewrite D. cbn [adstock_loop np_array map]. fin_eq.
Qed.

(** C4, amended.  No parameter is validated.  A zero half life stops the
    computation with [ZeroDivisionError] before any series exists.  With
    a half life that is positive or at most [-1], a penetration in
    [[1, 1000000]] and a shape exponent in [[-5, 5]] (ranges in which no
    power leaves the double range) the computation reports nothing,
    whatever the signs of the half life, the effectiveness and the shape
    exponent, and returns both series at the length of the spend
    series. *)
Theorem parameters_not_validated
  (spend : list R) (half_life penetration effectiveness p : R) :
  (half_life = 0 ->
   compute_response_series spend half_life penetration effectiveness p
   = Raises ZeroDivisionError)
  /\ (0 < half_life \/ half_life <= -1 ->
      1 <= penetration <= 1000000 -> -5 <= p <= 5 ->
      exists response adstocked : list xreal,
        compute_response_series spend half_life penetration effectiveness p
        = Returns (response, adstocked)
        /\ length adstocked = length spend
        /\ length response = length spend).
Proof.
  split.
  - intros ->. apply compute_response_series_zero_half_life.
  - intros Hh Hpen Hp. do 2 eexists. split.
    + apply (compute_response_series_returns spend half_life penetration effectiveness p
               (Rpower penetration p)); [lra | apply py_pow_pos; lra].
    + unfold np_array. rewrite !length_map, adstock_loop_length. split; reflexivity.
Qed.

Lemma parameters_not_validated_witness :
  exists response adstocked : list xreal,
    compute_response_series [1; 2] (-1) 1 (-1) (-1) = Returns (response, adstocked)
    /\ length adstocked = length [1; 2]
    /\ length response = length [1; 2].
Proof. apply (proj2 (parameters_not_validated [1; 2] (-1) 1 (-1) (-1))); lra. Defined.

(** ** Point D when Point C is missing *)

Lemma response_of_flat_pair :
  compute_response_series [99; 299/2] 1 1 1 1
  = Returns ([Fin (99/100); Fin (199/200)], [Fin 99; Fin 199]).
Proof.
  rewrite (compute_response_series_returns [99; 299/2] 1 1 1 1 1);
    [| lra | rewrite py_pow_pos by lra; now rewrite Rpower_1 by lra].
  rewrite decay_of_one. cbn [adstock_loop np_array map].
  rewrite !np_pow_pos by lra. rewrite !Rpower_1 by lra.
  cbn [xadd]. rewrite !xdiv_fin by lra. cbn [xmul].
  fin_eq.
Qed.

Lemma elasticity_of_flat_pair :
  compute_elasticity [Fin (99/100); Fin (199/200)] [Fin 99; Fin 199]
  = Returns ([Fin (1/20000); Fin (1/20000)], [Fin (1/200); Fin (1/100)]).
Proof.
  unfold compute_elasticity, np_gradient. xeval.
  unfold gradient_at, at_. xeval. fin_eq.
Qed.

(** C5.  Spend [[99, 149.5]] with every parameter at 1: both slopes are
    [1/20000], below [0.01], so the search of line 103 on this slope
    array returns index 0; but no slope is below half the maximum, the
    search of line 98 raises first, and the run ends with [IndexError]:
    Point D is not taken although its threshold is crossed. *)
Theorem point_D_lost_with_point_C :
  compute_response_series [99; 299/2] 1 1 1 1
  = Returns ([Fin (99/100); Fin (199/200)], [Fin 99; Fin 199])
  /\ compute_elasticity [Fin (99/100); Fin (199/200)] [Fin 99; Fin 199]
     = Returns ([Fin (1/20000); Fin (1/20000)], [Fin (1/200); Fin (1/100)])
  /\ xltb (Fin (1/20000)) (Fin (1/100)) = true
  /\ idx_D [Fin (1/20000); Fin (1/20000)] = Returns 0%nat
  /\ idx_C [Fin (1/20000); Fin (1/20000)] = Raises IndexError
  /\ landmarks [Fin (1/20000); Fin (1/20000)] [Fin 99; Fin 199]
       [Fin (99/100); Fin (199/200)]
     = Raises IndexError
  /\ analysis [99; 299/2] 1 1 1 1 = Raises IndexError.
Proof.
  assert (C : idx_C [Fin (1/20000); Fin (1/20000)] = Raises IndexError).
  { apply (idx_C_missing _ (Fin (1/20000))).
    - unfold np_max. xeval. unfold xmax. xeval. reflexivity.
    - intros [|[|i]]; unfold at_; xeval; try reflexivity.
      destruct i; reflexivity. }
  assert (L : landmarks [Fin (1/20000); Fin (1/20000)] [Fin 99; Fin 199]
                [Fin (99/100); Fin (199/200)] = Raises IndexError).
  { unfold landmarks, point_C. now rewrite C. }
  split; [apply response_of_flat_pair|].
  split; [apply elasticity_of_flat_pair|].
  split; [xeval; reflexivity|].
  split; [unfold idx_D; xeval; reflexivity|].
  split; [exact C|]. split; [exact L|].
  unfold analysis. rewrite response_of_flat_pair. cbn [bind].
  rewrite elasticity_of_flat_pair. cbn [bind].
  rewrite point_A_value by lra. cbn [bind].
  now rewrite L.
Qed.

(** ** The saturation laws on IEEE doubles *)

(** C6, as stated, fails.  At [penetration = 1e308] and [p = 1.0] the sum
    [x ** p + penetration ** p] overflows to infinity: the saturation
    function gives [0.0] at [x = penetration], and [point_A_y] is [0.0]
    for an effectiveness of 500, not 250. *)
Lemma saturation_midpoint_counterexample :
  PrimFloat.ltb 0%float 0x1.1ccf385ebc8ap+1023%float = true
  /\ saturation_function_p1 0x1.1ccf385ebc8ap+1023%float 0x1.1ccf385ebc8ap+1023%float
     = 0%float
  /\ point_A_y_p1 0x1.1ccf385ebc8ap+1023%float 500%float = 0%float
  /\ PrimFloat.mul 500%float 0.5%float = 250%float.
Proof. repeat split; vm_compute; reflexivity. Qed.

(** C6, amended.  For a penetration in [[1, 1000000]] and a shape
    exponent in [[0.1, 5]], the ranges of the two input widgets, Point A
    is [(penetration, effectiveness * 0.5)]: line 94 takes the same power
    of the same number three times, and the quotient is one half. *)
Theorem point_A_half_effectiveness (penetration effectiveness hill_power : R) :
  1 <= penetration <= 1000000 -> 1/10 <= hill_power <= 5 ->
  point_A penetration effectiveness hill_power
  = Returns (penetration, effectiveness * (1/2)).
Proof. intros Hpen _. apply point_A_value. lra. Qed.

Lemma point_A_half_effectiveness_witness :
  point_A 2000 500 (1/2) = Returns (2000, 500 * (1/2)).
Proof. apply (point_A_half_effectiveness 2000 500 (1/2)); lra. Defined.


(** * Further properties of the adstock transform *)

Lemma decay_of_pos (half_life : R) : 0 < decay_of half_life.
Proof. apply Rpower_pos. Qed.

Lemma adstock_loop_monotone (decay : R) (s1 s2 : list R) :
  0 <= decay -> Forall2 Rle s1 s2 ->
  forall c1 c2 : R, c1 <= c2 ->
    Forall2 Rle (adstock_loop decay c1 s1) (adstock_loop decay c2 s2).
Proof.
  intros Hd H. induction H as [|x y s1 s2 Hxy Hs IH]; intros c1 c2 Hc; cbn.
  - constructor.
  - assert (x + decay * c1 <= y + decay * c2) by nra.
    constructor; [assumption | now apply IH].
Qed.

(** More spend on any day never lowers the adstock of any day. *)
Theorem adstock_monotone_in_spend (s1 s2 : list R) (half_life : R) :
  0 < half_life -> Forall2 Rle s1 s2 ->
  exists a1 a2 : list R,
    compute_adstock_series s1 half_life = Returns (np_array a1)
    /\ compute_adstock_series s2 half_life = Returns (np_array a2)
    /\ Forall2 Rle a1 a2.
Proof.
  intros Hh Hs.
  exists (adstock_loop (decay_of half_life) 0 s1), (adstock_loop (decay_of half_life) 0 s2).
  rewrite !compute_adstock_series_eq by lra.
  repeat split. apply adstock_loop_monotone; [left; apply decay_of_pos | assumption | lra].
Qed.

Lemma adstock_monotone_in_spend_witness :
  exists a1 a2 : list R,
    compute_adstock_series [1; 0] 7 = Returns (np_array a1)
    /\ compute_adstock_series [2; 0] 7 = Returns (np_array a2)
    /\ Forall2 Rle a1 a2.
Proof.
  apply (adstock_monotone_in_spend [1; 0] [2; 0] 7); [lra|].
  repeat constructor; lra.
Defined.

(** * Further properties of the response series *)

Lemma saturation_element_hill (x penetration p : R) :
  0 <= x -> 0 < penetration -> 0 < p ->
  xdiv (np_pow (Fin x) p) (xadd (np_pow (Fin x) p) (Fin (Rpower penetration p)))
  = Fin (hill_curve penetration p x).
Proof.
  intros Hx Hpen Hp. pose proof (Rpower_pos penetration p) as Hc.
  unfold hill_curve. destruct (Rle_lt_or_eq_dec 0 x Hx) as [Hpos | <-].
  - pose proof (Rpower_pos x p) as Ht.
    rewrite np_pow_pos, Rlt_b_true by assumption. cbn [xadd]. now rewrite xdiv_fin by lra.
  - rewrite np_pow_zero, Rlt_b_false by lra. cbn [xadd]. now rewrite xdiv_fin by lra.
Qed.

Lemma response_map_hill (l : list R) (penetration effectiveness p : R) :
  0 < penetration -> 0 < p -> Forall (fun x => 0 <= x) l ->
  map (xmul (Fin effectiveness))
    (map (fun x => xdiv (np_pow x p) (xadd (np_pow x p) (Fin (Rpower penetration p))))
       (np_array l))
  = np_array (map (fun x => effectiveness * hill_curve penetration p x) l).
Proof.
  intros Hpen Hp H. induction H as [|x l Hx Hl IH]; [reflexivity|].
  unfold np_array in *. cbn [map]. rewrite IH.
  now rewrite saturation_element_hill by assumption.
Qed.

Lemma adstock_loop_nonneg (decay : R) (s : list R) :
  0 <= decay -> Forall (fun x => 0 <= x) s ->
  forall c : R, 0 <= c -> Forall (fun x => 0 <= x) (adstock_loop decay c s).
Proof.
  intros Hd H. induction H as [|x s Hx Hs IH]; intros c Hc; cbn; constructor.
  - assert (0 <= decay * c) by (apply Rmult_le_pos; assumption). lra.
  - apply IH. assert (0 <= decay * c) by (apply Rmult_le_pos; assumption). lra.
Qed.

Lemma compute_response_series_hill
  (spend : list R) (half_life penetration effectiveness p : R) :
  0 < half_life -> 0 < penetration -> 0 < p -> Forall (fun x => 0 <= x) spend ->
  compute_response_series spend half_life penetration effectiveness p
  = Returns
      (np_array (map (fun x => effectiveness * hill_curve penetration p x)
                   (adstock_loop (decay_of half_life) 0 spend)),
       np_array (adstock_loop (decay_of half_life) 0 spend)).
Proof.
  intros Hh Hpen Hp Hs.
  rewrite (compute_response_series_returns spend half_life penetration effectiveness p
             (Rpower penetration p)) by (try lra; now apply py_pow_pos).
  rewrite response_map_hill; try assumption; [reflexivity|].
  apply adstock_loop_nonneg; [left; apply decay_of_pos | assumption | lra].
Qed.

Lemma nth_map_in (f : R -> R) (l : list R) (i : nat) :
  (i < length l)%nat -> nth i (map f l) 0 = f (nth i l 0).
Proof.
  intros Hi. rewrite (nth_indep _ 0 (f 0)) by (now rewrite length_map).
  apply map_nth.
Qed.

(** * Further properties of the landmark search *)

Lemma xmax_nan_l (y : xreal) : xmax NaN y = NaN.
Proof. reflexivity. Qed.

Lemma xmax_nan_r (x : xreal) : xmax x NaN = NaN.
Proof. destruct x; reflexivity. Qed.

Lemma fold_xmax_nan (rest : list xreal) :
  forall x : xreal, x = NaN \/ In NaN rest -> fold_left xmax rest x = NaN.
Proof.
  induction rest as [|y rest IH]; intros x [Hx | Hin]; cbn [fold_left].
  - assumption.
  - destruct Hin.
  - subst x. apply IH. now left.
  - destruct Hin as [-> | Hin].
    + apply IH. left. apply xmax_nan_r.
    + apply IH. now right.
Qed.

Lemma xltb_nan_r (s : xreal) : xltb s NaN = false.
Proof. destruct s; reflexivity. Qed.

Lemma np_max_of_nan_slope (slope : list xreal) :
  In NaN slope -> np_max slope = Returns NaN.
Proof.
  intros Hin. destruct slope as [|x rest]; [destruct Hin|]. cbn [np_max]. f_equal.
  apply fold_xmax_nan. destruct Hin as [-> | Hin]; [now left | now right].
Qed.

Lemma idx_C_of_nan_slope (slope : list xreal) :
  In NaN slope -> idx_C slope = Raises IndexError.
Proof.
  intros Hin. apply (idx_C_missing slope NaN (np_max_of_nan_slope slope Hin)).
  intros i. cbn [xmul xsign]. apply xltb_nan_r.
Qed.

Lemma landmarks_raise_with_idx_C (slope adstocked response : list xreal) (e : exn) :
  idx_C slope = Raises e -> landmarks slope adstocked response = Raises e.
Proof. intros C. unfold landmarks, point_C. now rewrite C. Qed.

(** One NaN among the slopes makes the maximum NaN, no slope is then
    below the threshold, and the search for Point C raises [IndexError]. *)
Theorem nan_slope_loses_point_C (slope adstocked response : list xreal) :
  In NaN slope ->
  np_max slope = Returns NaN
  /\ idx_C slope = Raises IndexError
  /\ landmarks slope adstocked response = Raises IndexError.
Proof.
  intros Hin.
  split; [now apply np_max_of_nan_slope|].
  split; [now apply idx_C_of_nan_slope|].
  apply landmarks_raise_with_idx_C. now apply idx_C_of_nan_slope.
Qed.

Lemma nan_slope_loses_point_C_witness :
  np_max [Fin 1; NaN; Fin (1/200)] = Returns NaN
  /\ idx_C [Fin 1; NaN; Fin (1/200)] = Raises IndexError
  /\ landmarks [Fin 1; NaN; Fin (1/200)] [Fin 1; Fin 1; Fin 2] [Fin 1; Fin 1; Fin 2]
     = Raises IndexError.
Proof.
  apply (nan_slope_loses_point_C [Fin 1; NaN; Fin (1/200)]
           [Fin 1; Fin 1; Fin 2] [Fin 1; Fin 1; Fin 2]).
  right. left. reflexivity.
Defined.

Lemma first_index_cases (mask : list bool) :
  (exists i0 : nat,
     first_index mask = Returns i0 /\ (i0 < length mask)%nat /\ nth i0 mask false = true)
  \/ (first_index mask = Raises IndexError /\ forall i : nat, nth i mask false = false).
Proof.
  induction mask as [|b mask IH].
  - right. split; [reflexivity|]. intros [|i]; reflexivity.
  - destruct b.
    + left. exists 0%nat. cbn. repeat split. lia.
    + destruct IH as [(i0 & E & Hlt & Ht) | [E Hnone]].
      * left. exists (S i0). cbn [first_index]. rewrite E. cbn. repeat split; [lia | assumption].
      * right. cbn [first_index]. rewrite E. split; [reflexivity|].
        intros [|i]; [reflexivity | apply Hnone].
Qed.

(** The search for Point D ends in exactly one of two ways: it returns an
    index whose slope is below [0.01], or no slope at all is below [0.01]
    and it raises [IndexError]. *)
Theorem idx_D_found_or_raises (slope : list xreal) :
  (exists j : nat,
     idx_D slope = Returns j /\ (j < length slope)%nat
     /\ xltb (at_ slope j) (Fin (1/100)) = true)
  \/ (idx_D slope = Raises IndexError
      /\ forall i : nat, xltb (at_ slope i) (Fin (1/100)) = false).
Proof.
  unfold idx_D.
  destruct (first_index_cases (map (fun s => xltb s (Fin (1/100))) slope))
    as [(j & E & Hlt & Ht) | [E Hnone]].
  - left. exists j. rewrite length_map in Hlt. rewrite mask_at in Ht. tauto.
  - right. split; [assumption|]. intros i. rewrite <- mask_at. apply Hnone.
Qed.

(** The two landmarks are returned exactly when some slope is below half
    the maximum slope and some slope is below [0.01]; in every other case
    on a non-empty slope array the search raises [IndexError]. *)
Theorem landmarks_returned_iff_both_crossed
  (slope adstocked response : list xreal) (m : xreal) :
  length adstocked = length slope -> length response = length slope ->
  np_max slope = Returns m ->
  ((exists pts, landmarks slope adstocked response = Returns pts)
   <-> ((exists i : nat, xltb (at_ slope i) (xmul m (Fin (1/2))) = true)
        /\ (exists j : nat, xltb (at_ slope j) (Fin (1/100)) = true)))
  /\ ((forall pts, landmarks slope adstocked response <> Returns pts) ->
      landmarks slope adstocked response = Raises IndexError).
Proof.
  intros La Lr Hm.
  assert (EC : idx_C slope = first_index (map (fun s => xltb s (xmul m (Fin (1/2)))) slope)).
  { unfold idx_C, slope_threshold. now rewrite Hm. }
  unfold landmarks, point_C, point_D. rewrite EC. unfold idx_D.
  destruct (first_index_cases (map (fun s => xltb s (xmul m (Fin (1/2)))) slope))
    as [(i & Ei & Hil & Hit) | [Ei Hni]];
    destruct (first_index_cases (map (fun s => xltb s (Fin (1/100))) slope))
    as [(j & Ej & Hjl & Hjt) | [Ej Hnj]];
    rewrite Ei; cbn [bind];
    rewrite ?length_map in *.
  - rewrite point_at_eq by lia. cbn [bind]. rewrite Ej. cbn [bind].
    rewrite point_at_eq by lia. cbn [bind].
    rewrite mask_at in Hit, Hjt. split.
    + split; [intros _; split; eauto | intros _; eauto].
    + intros H. exfalso. eapply H. reflexivity.
  - rewrite point_at_eq by lia. cbn [bind]. rewrite Ej. cbn [bind]. split.
    + split; [intros [pts H]; discriminate|].
      intros [_ [j Hj]]. rewrite <- mask_at, Hnj in Hj. discriminate.
    + reflexivity.
  - split.
    + split; [intros [pts H]; discriminate|].
      intros [[i' Hi'] _]. rewrite <- mask_at, Hni in Hi'. discriminate.
    + reflexivity.
  - split.
    + split; [intros [pts H]; discriminate|].
      intros [[i' Hi'] _]. rewrite <- mask_at, Hni in Hi'. discriminate.
    + reflexivity.
Qed.

Lemma landmarks_returned_iff_both_crossed_witness :
  ((exists pts,
      landmarks [Fin (1/5); Fin (1/5)] [Fin 1; Fin (3/2)] [Fin (1/2); Fin (3/5)]
      = Returns pts)
   <-> ((exists i : nat,
           xltb (at_ [Fin (1/5); Fin (1/5)] i) (xmul (Fin (1/5)) (Fin (1/2))) = true)
        /\ (exists j : nat, xltb (at_ [Fin (1/5); Fin (1/5)] j) (Fin (1/100)) = true)))
  /\ ((forall pts,
         landmarks [Fin (1/5); Fin (1/5)] [Fin 1; Fin (3/2)] [Fin (1/2); Fin (3/5)]
         <> Returns pts) ->
      landmarks [Fin (1/5); Fin (1/5)] [Fin 1; Fin (3/2)] [Fin (1/2); Fin (3/5)]
      = Raises IndexError).
Proof.
  apply (landmarks_returned_iff_both_crossed
           [Fin (1/5); Fin (1/5)] [Fin 1; Fin (3/2)] [Fin (1/2); Fin (3/5)] (Fin (1/5))).
  - reflexivity.
  - reflexivity.
  - unfold np_max. xeval. unfold xmax. xeval. reflexivity.
Defined.

(** * Campaigns on which the run cannot finish *)

(** Two coinciding first samples give a NaN slope at the first index. *)
Lemma slope_nan_at_repeated_start (r x : list R) :
  length r = length x -> (2 <= length r)%nat ->
  nth 1 x 0 = nth 0 x 0 -> nth 1 r 0 = nth 0 r 0 ->
  exists slope elasticity : list xreal,
    compute_elasticity (np_array r) (np_array x) = Returns (slope, elasticity)
    /\ In NaN slope.
Proof.
  intros Hlen Hn Hx Hr. unfold compute_elasticity.
  rewrite np_gradient_returns by (rewrite !np_array_length; assumption).
  cbn [bind]. rewrite np_array_length.
  do 2 eexists. split; [reflexivity|].
  set (slope := map _ (seq 0 (length r))).
  assert (E : at_ slope 0 = NaN).
  { unfold slope. rewrite gradient_elements by lia.
    unfold gradient_at. cbn [Nat.eqb].
    rewrite !np_array_at by lia. rewrite np_diff_array_at by lia.
    rewrite Hx, Hr. cbn [xsub xneg xadd xdiv]. now rtest. }
  rewrite <- E. apply at_In. unfold slope. rewrite length_map, length_seq. lia.
Qed.

Lemma analysis_raises_with_idx_C
  (spend : list R) (half_life penetration effectiveness p : R)
  (response adstocked slope elasticity : list xreal) :
  0 < penetration ->
  compute_response_series spend half_life penetration effectiveness p
  = Returns (response, adstocked) ->
  compute_elasticity response adstocked = Returns (slope, elasticity) ->
  idx_C slope = Raises IndexError ->
  analysis spend half_life penetration effectiveness p = Raises IndexError.
Proof.
  intros Hpen R E C. unfold analysis. rewrite R. cbn [bind]. rewrite E. cbn [bind].
  rewrite point_A_value by assumption. cbn [bind].
  now rewrite (landmarks_raise_with_idx_C slope adstocked response IndexError C).
Qed.

(** A campaign whose first two days have no spend cannot be analysed:
    the first two adstocked values are both 0, the first slope is [0/0],
    and the run ends with [IndexError] at Point C. *)
Theorem leading_zero_spend_raises
  (rest : list R) (half_life penetration effectiveness p : R) :
  0 < half_life -> 0 < penetration -> 0 < p -> Forall (fun x => 0 <= x) rest ->
  analysis (0 :: 0 :: rest) half_life penetration effectiveness p = Raises IndexError.
Proof.
  intros Hh Hpen Hp Hrest.
  assert (Hs : Forall (fun x => 0 <= x) (0 :: 0 :: rest))
    by (constructor; [lra | constructor; [lra | assumption]]).
  pose proof (compute_response_series_hill (0 :: 0 :: rest) half_life penetration
                effectiveness p Hh Hpen Hp Hs) as R.
  set (a := adstock_loop (decay_of half_life) 0 (0 :: 0 :: rest)) in *.
  assert (A0 : nth 0 a 0 = 0) by (unfold a; cbn; ring).
  assert (A1 : nth 1 a 0 = 0) by (unfold a; cbn; ring).
  assert (La : length a = S (S (length rest))).
  { unfold a. rewrite adstock_loop_length. reflexivity. }
  destruct (slope_nan_at_repeated_start
              (map (fun x => effectiveness * hill_curve penetration p x) a) a)
    as (slope & el & E & Hin).
  - apply length_map.
  - rewrite length_map. lia.
  - now rewrite A0, A1.
  - rewrite !nth_map_in by lia. now rewrite A0, A1.
  - apply (analysis_raises_with_idx_C _ _ _ _ _ _ _ slope el Hpen R E).
    now apply idx_C_of_nan_slope.
Qed.

Lemma leading_zero_spend_raises_witness :
  analysis (0 :: 0 :: [100; 200; 50]) 7 2000 500 (1/2) = Raises IndexError.
Proof.
  apply (leading_zero_spend_raises [100; 200; 50] 7 2000 500 (1/2)); try lra.
  repeat constructor; lra.
Defined.

(** * What a finished run hands on *)

Lemma compute_response_series_lengths
  (spend : list R) (half_life penetration effectiveness p : R)
  (response adstocked : list xreal) :
  compute_response_series spend half_life penetration effectiveness p
  = Returns (response, adstocked) ->
  length response = length spend /\ length adstocked = length spend.
Proof.
  unfold compute_response_series, compute_adstock_series, saturation_function.
  destruct (py_div 1 half_life) as [e| |]; cbn [bind]; try discriminate.
  destruct (py_pow (1/2) e) as [d| |]; cbn [bind]; try discriminate.
  destruct (py_pow penetration p) as [pp| |]; cbn [bind]; try discriminate.
  intros H. injection H as <- <-.
  unfold np_array. rewrite !length_map, adstock_loop_length. split; reflexivity.
Qed.

Lemma compute_elasticity_lengths (response adstocked slope elasticity : list xreal) :
  compute_elasticity response adstocked = Returns (slope, elasticity) ->
  length adstocked = length response
  /\ (2 <= length response)%nat
  /\ length slope = length response
  /\ length elasticity = length response.
Proof.
  unfold compute_elasticity, np_gradient.
  destruct (length adstocked =? length response)%nat eqn:E; cbn [negb bind];
    [|discriminate].
  apply Nat.eqb_eq in E.
  pose proof (np_diff_length adstocked) as Ld.
  destruct (np_diff adstocked) as [|d0 ds]; cbn [bind]; [discriminate|].
  cbn [length] in Ld. intros H. injection H as <- <-.
  assert (Ls : length (map (gradient_at (forallb (fun d => xeqb d d0) (d0 :: ds))
                              response (d0 :: ds) (length response))
                         (seq 0 (length response))) = length response)
    by (now rewrite length_map, length_seq).
  split; [lia|]. split; [lia|]. split; [exact Ls|].
  assert (Lq : length (map2 xdiv adstocked response) = length response)
    by (rewrite map2_length; lia).
  rewrite np_where_length.
  - rewrite map2_length; [exact Ls|]. transitivity (length response); [exact Ls | lia].
  - rewrite length_map, map2_length; [symmetry; exact Ls|].
    transitivity (length response); [exact Ls | lia].
Qed.

Lemma first_index_in_range (mask : list bool) :
  forall i : nat, first_index mask = Returns i -> (i < length mask)%nat.
Proof.
  induction mask as [|b mask IH]; intros i H; cbn in H; [discriminate|].
  destruct b.
  - injection H as <-. cbn. lia.
  - destruct (first_index mask) as [j| |]; cbn in H; try discriminate.
    injection H as <-. specialize (IH j eq_refl). cbn. lia.
Qed.

Lemma landmarks_on_curve (slope adstocked response : list xreal)
  (pC pD : xreal * xreal) :
  length adstocked = length slope -> length response = length slope ->
  landmarks slope adstocked response = Returns (pC, pD) ->
  exists i j : nat,
    (i < length slope)%nat /\ (j < length slope)%nat
    /\ idx_C slope = Returns i /\ idx_D slope = Returns j
    /\ pC = (at_ adstocked i, at_ response i)
    /\ pD = (at_ adstocked j, at_ response j).
Proof.
  intros La Lr. unfold landmarks, point_C, point_D.
  destruct (idx_C slope) as [i| |] eqn:EC; cbn [bind]; try discriminate.
  assert (Hi : (i < length slope)%nat).
  { unfold idx_C in EC. destruct (slope_threshold slope) as [t| |]; cbn [bind] in EC;
      try discriminate.
    apply first_index_in_range in EC. now rewrite length_map in EC. }
  rewrite point_at_eq by lia. cbn [bind].
  destruct (idx_D slope) as [j| |] eqn:ED; cbn [bind]; try discriminate.
  assert (Hj : (j < length slope)%nat).
  { unfold idx_D in ED. apply first_index_in_range in ED. now rewrite length_map in ED. }
  rewrite point_at_eq by lia. cbn [bind].
  intros H. injection H as <- <-. exists i, j. repeat split; assumption.
Qed.

(** Whenever the run finishes, the campaign has at least two rows, the
    four series it hands on are as long as the spend series, and Points C
    and D are samples of the curve: [(adstocked[i], response[i])] at the
    indices the two searches returned. *)
Theorem analysis_result_aligned
  (spend : list R) (half_life penetration effectiveness hill_power : R)
  (ca : CurveAnalysis) :
  analysis spend half_life penetration effectiveness hill_power = Returns ca ->
  (2 <= length spend)%nat
  /\ length (ca_adstocked ca) = length spend
  /\ length (ca_response ca) = length spend
  /\ length (ca_slope ca) = length spend
  /\ length (ca_elasticity ca) = length spend
  /\ compute_response_series spend half_life penetration effectiveness hill_power
     = Returns (ca_response ca, ca_adstocked ca)
  /\ compute_elasticity (ca_response ca) (ca_adstocked ca)
     = Returns (ca_slope ca, ca_elasticity ca)
  /\ exists i j : nat,
       (i < length spend)%nat /\ (j < length spend)%nat
       /\ idx_C (ca_slope ca) = Returns i /\ idx_D (ca_slope ca) = Returns j
       /\ ca_point_C ca = (at_ (ca_adstocked ca) i, at_ (ca_response ca) i)
       /\ ca_point_D ca = (at_ (ca_adstocked ca) j, at_ (ca_response ca) j).
Proof.
  unfold analysis.
  destruct (compute_response_series spend half_life penetration effectiveness hill_power)
    as [[response adstocked]| |] eqn:R; cbn [bind]; try discriminate.
  destruct (compute_elasticity response adstocked) as [[slope elasticity]| |] eqn:E;
    cbn [bind]; try discriminate.
  destruct (point_A penetration effectiveness hill_power) as [pA| |]; cbn [bind];
    try discriminate.
  destruct (landmarks slope adstocked response) as [[pC pD]| |] eqn:L; cbn [bind];
    try discriminate.
  intros H. injection H as <-. cbn.
  destruct (compute_response_series_lengths _ _ _ _ _ _ _ R) as [Lr La].
  destruct (compute_elasticity_lengths _ _ _ _ E) as (_ & Hn & Ls & Le).
  destruct (landmarks_on_curve slope adstocked response pC pD ltac:(lia) ltac:(lia) L)
    as (i & j & Hi & Hj & EC & ED & PC & PD).
  repeat (split; [first [assumption | reflexivity | lia]|]).
  exists i, j. repeat split; try assumption; lia.
Qed.

(** A run that finishes: spend [1, 9.5, 95] with every parameter at 1
    gives the adstocked values [1, 10, 100]; Points C and D are both the
    last sample. *)
Lemma response_of_saturating_run :
  compute_response_series [1; 19/2; 95] 1 1 1 1
  = Returns ([Fin (1/2); Fin (10/11); Fin (100/101)], [Fin 1; Fin 10; Fin 100]).
Proof.
  rewrite (compute_response_series_returns [1; 19/2; 95] 1 1 1 1 1);
    [| lra | rewrite py_pow_pos by lra; now rewrite Rpower_1 by lra].
  rewrite decay_of_one. cbn [adstock_loop np_array map].
  rewrite !np_pow_pos by lra. rewrite !Rpower_1 by lra.
  cbn [xadd]. rewrite !xdiv_fin by lra. cbn [xmul].
  fin_eq.
Qed.

Lemma elasticity_of_saturating_run :
  compute_elasticity [Fin (1/2); Fin (10/11); Fin (100/101)] [Fin 1; Fin 10; Fin 100]
  = Returns ([Fin (1/22); Fin (46/1111); Fin (1/1111)],
             [Fin (1/11); Fin (46/101); Fin (1/11)]).
Proof.
  unfold compute_elasticity, np_gradient. xeval.
  unfold gradient_at, at_. xeval. fin_eq.
Qed.

Lemma landmarks_of_saturating_run :
  landmarks [Fin (1/22); Fin (46/1111); Fin (1/1111)] [Fin 1; Fin 10; Fin 100]
    [Fin (1/2); Fin (10/11); Fin (100/101)]
  = Returns ((Fin 100, Fin (100/101)), (Fin 100, Fin (100/101))).
Proof.
  unfold landmarks, point_C, point_D, idx_C, idx_D, slope_threshold, np_max.
  cbn [fold_left]. unfold xmax. xeval. reflexivity.
Qed.

Lemma analysis_of_saturating_run :
  analysis [1; 19/2; 95] 1 1 1 1
  = Returns (mkCurveAnalysis
               [Fin 1; Fin 10; Fin 100]
               [Fin (1/2); Fin (10/11); Fin (100/101)]
               [Fin (1/22); Fin (46/1111); Fin (1/1111)]
               [Fin (1/11); Fin (46/101); Fin (1/11)]
               (1, 1 * (1/2))
               (Fin 100, Fin (100/101))
               (Fin 100, Fin (100/101))).
Proof.
  unfold analysis. rewrite response_of_saturating_run. cbn [bind].
  rewrite elasticity_of_saturating_run. cbn [bind].
  rewrite point_A_value by lra. cbn [bind].
  rewrite landmarks_of_saturating_run. reflexivity.
Qed.

Lemma analysis_result_aligned_witness :
  let ca :=
    mkCurveAnalysis
      [Fin 1; Fin 10; Fin 100]
      [Fin (1/2); Fin (10/11); Fin (100/101)]
      [Fin (1/22); Fin (46/1111); Fin (1/1111)]
      [Fin (1/11); Fin (46/101); Fin (1/11)]
      (1, 1 * (1/2))
      (Fin 100, Fin (100/101))
      (Fin 100, Fin (100/101)) in
  (2 <= length [1; 19/2; 95])%nat
  /\ length (ca_adstocked ca) = length [1; 19/2; 95]
  /\ length (ca_response ca) = length [1; 19/2; 95]
  /\ length (ca_slope ca) = length [1; 19/2; 95]
  /\ length (ca_elasticity ca) = length [1; 19/2; 95]
  /\ compute_response_series [1; 19/2; 95] 1 1 1 1
     = Returns (ca_response ca, ca_adstocked ca)
  /\ compute_elasticity (ca_response ca) (ca_adstocked ca)
     = Returns (ca_slope ca, ca_elasticity ca)
  /\ exists i j : nat,
       (i < length [1; 19/2; 95])%nat /\ (j < length [1; 19/2; 95])%nat
       /\ idx_C (ca_slope ca) = Returns i /\ idx_D (ca_slope ca) = Returns j
       /\ ca_point_C ca = (at_ (ca_adstocked ca) i, at_ (ca_response ca) i)
       /\ ca_point_D ca = (at_ (ca_adstocked ca) j, at_ (ca_response ca) j).
Proof.
  exact (analysis_result_aligned [1; 19/2; 95] 1 1 1 1 _ analysis_of_saturating_run).
Defined.

(** * The recommendation *)

Lemma xltb_xleb_trans (c a b : xreal) :
  xltb c a = true -> xleb a b = true -> xltb c b = true.
Proof. destruct c, a, b; cbn; intros; try discriminate; try reflexivity; rcases. Qed.

(** A higher average elasticity never gets a less favourable message. *)
Theorem recommend_monotone (a b : xreal) :
  xleb a b = true -> (tier (recommend a) <= tier (recommend b))%nat.
Proof.
  intros Hab. unfold recommend.
  destruct (xltb (Fin 1) a) eqn:A1.
  { now rewrite (xltb_xleb_trans _ _ _ A1 Hab). }
  destruct (xltb (Fin (8/10)) a) eqn:A2.
  { rewrite (xltb_xleb_trans _ _ _ A2 Hab).
    destruct (xltb (Fin 1) b); cbn; lia. }
  destruct (xltb (Fin (1/2)) a) eqn:A3.
  { rewrite (xltb_xleb_trans _ _ _ A3 Hab).
    destruct (xltb (Fin 1) b), (xltb (Fin (8/10)) b); cbn; lia. }
  destruct (xltb (Fin (1/10)) a) eqn:A4.
  { rewrite (xltb_xleb_trans _ _ _ A4 Hab).
    destruct (xltb (Fin 1) b), (xltb (Fin (8/10)) b), (xltb (Fin (1/2)) b); cbn; lia. }
  cbn. lia.
Qed.

Lemma recommend_monotone_witness :
  (tier (recommend (Fin (3/5))) <= tier (recommend (Fin (9/10))))%nat.
Proof. apply (recommend_monotone (Fin (3/5)) (Fin (9/10))). cbn. now rtest. Defined.

